(** * The [add] command of the reactuse CLI: dependency resolution,
      file plans and installation.

    The development follows the source of the command
    ([resolveDependencies] and [add.handler]):

    - the registry is a JS object used as a map from hook names to
      items, modelled as a [gmap string RegistryItem];
    - the resolution result is a JS [Map], whose iteration order is the
      order of first insertion and whose [set] on a present key replaces
      the value in place: an association list with [map_set];
    - the recursive traversal has no guard of its own, so the model
      bounds the depth of the call stack; exhausting the bound is the
      model of JS running out of stack;
    - the installer is a loop over the file plans that threads a world
      (file system, event trace) and consumes the user's answers. *)

From Stdlib Require Import String Ascii List Bool Arith Lia.
From stdpp Require Import gmap strings list fin_maps.
Import ListNotations.

Local Open Scope string_scope.

(** ** Data model *)

(** [type: 'hook' | 'util' | 'local' | 'package'] *)
Inductive DependencyType : Type :=
  | hook_
  | util_
  | local_
  | package_.

Definition DependencyType_eqb (a b : DependencyType) : bool :=
  match a, b with
  | hook_, hook_ | util_, util_ | local_, local_ | package_, package_ => true
  | _, _ => false
  end.

(** A value of the registry object: the display name and the four
    dependency arrays. *)
Record RegistryItem : Type := mkItem {
  item_name : string;
  item_hooks : list string;
  item_utils : list string;
  item_local : list string;
  item_packages : list string
}.

(** The values stored in the [files] map of [resolveDependencies]. *)
Record Dependency : Type := mkDep {
  dep_type : DependencyType;
  dep_name : string;
  dep_parent : string
}.

(** The objects produced by the [map] callback of the handler. *)
Record FilePlan : Type := mkFile {
  file_name : string;
  directoryPath : string;
  registryPath : string;
  file_type : DependencyType;
  indexPath : string;
  filePath : string
}.

(** ** JS [Map] with insertion order *)

Definition FileMap : Type := list (string * Dependency).

(** [files.set(k, v)]: a present key keeps its position and takes the
    new value, an absent key is appended. *)
Fixpoint map_set (k : string) (v : Dependency) (m : FileMap) : FileMap :=
  match m with
  | [] => [(k, v)]
  | (k', v') :: m' =>
      if String.eqb k k' then (k, v) :: m' else (k', v') :: map_set k v m'
  end.

(** [files.get(k)] *)
Fixpoint map_get (k : string) (m : FileMap) : option Dependency :=
  match m with
  | [] => None
  | (k', v') :: m' => if String.eqb k k' then Some v' else map_get k m'
  end.

(** [Array.from(files.keys())] and [Array.from(files.values())] *)
Definition map_keys (m : FileMap) : list string := map fst m.
Definition map_values (m : FileMap) : list Dependency := map snd m.

(** ** Outcomes of the resolver *)

(** A call either returns, or throws the [TypeError] of reading a
    property of [undefined] (the entry [registry[hook]] is missing), or
    exceeds the stack. *)
Inductive outcome (A : Type) : Type :=
  | Returned (a : A)
  | TypeError (hook : string)
  | StackExhausted.

Arguments Returned {A} a.
Arguments TypeError {A} hook.
Arguments StackExhausted {A}.

(** [for (const x of xs) body(x)] over a threaded state; the first
    exception leaves the loop. *)
Fixpoint forOf {S : Type} (body : string -> S -> outcome S)
    (xs : list string) (s : S) : outcome S :=
  match xs with
  | [] => Returned s
  | x :: xs' =>
      match body x s with
      | Returned s' => forOf body xs' s'
      | TypeError h => TypeError h
      | StackExhausted => StackExhausted
      end
  end.

(** ** resolveDependencies *)

(** [if (names.length) Array.from(names).forEach((n) => files.set(n,
    { type, name: n, parent }))] *)
Definition setEach (ty : DependencyType) (parent : string)
    (names : list string) (files : FileMap) : FileMap :=
  if negb (Nat.eqb (length names) 0)
  then fold_left (fun fs n => map_set n (mkDep ty n parent) fs) names files
  else files.

(** The four groups of [files.set] calls at the head of
    [resolveDependency], in source order. *)
Definition record (hook : string) (item : RegistryItem) (files : FileMap)
    : FileMap :=
  let files := map_set hook (mkDep hook_ hook (item_name item)) files in
  let files := setEach util_ (item_name item) (item_utils item) files in
  let files := setEach local_ (item_name item) (item_local item) files in
  setEach package_ (item_name item) (item_packages item) files.

(** [resolveDependency], with [depth] frames of stack left. Without an
    entry of its own for [hook], [registry[hook]] is [undefined], and
    reading [item.name] throws, or it is a property inherited from
    [Object.prototype], which has no [utils], and reading
    [item.utils.length] throws: a [TypeError] in both cases, and the
    map is lost with it. *)
Fixpoint resolveDependency (depth : nat) (registry : gmap string RegistryItem)
    (hook : string) (files : FileMap) : outcome FileMap :=
  match depth with
  | 0 => StackExhausted
  | S depth' =>
      match registry !! hook with
      | None => TypeError hook
      | Some item =>
          forOf (resolveDependency depth' registry) (item_hooks item)
                (record hook item files)
      end
  end.

Definition resolveDependencies (depth : nat)
    (registry : gmap string RegistryItem) (hooks : list string)
    : outcome FileMap :=
  forOf (resolveDependency depth registry) hooks [].

(** ** Sample registries *)

Definition useFoo_item (display : string) : RegistryItem :=
  mkItem display [] ["formatDate"] [] ["left-pad"].

Definition useFoo_registry (display : string) : gmap string RegistryItem :=
  {[ "useFoo" := useFoo_item display ]}.

Definition cyclic_registry : gmap string RegistryItem :=
  <[ "a" := mkItem "a" ["b"] [] [] [] ]>
    {[ "b" := mkItem "b" ["a"] [] [] [] ]}.

(** ** The handler's checks before resolution *)

(** The names that every object inherits from [Object.prototype]; the
    registry is a parsed JSON object, so [registry[hook]] is a function
    (or the prototype itself) for these names when the registry has no
    entry of its own for them. *)
Definition Object_prototype : list string :=
  [ "constructor"; "__defineGetter__"; "__defineSetter__";
    "hasOwnProperty"; "__lookupGetter__"; "__lookupSetter__";
    "isPrototypeOf"; "propertyIsEnumerable"; "toString"; "valueOf";
    "__proto__"; "toLocaleString" ].

(** JS truthiness of [registry[hook]]: an item is an object (truthy),
    an inherited property is truthy too, anything else is
    [undefined]. *)
Definition present (registry : gmap string RegistryItem) (hook : string)
    : bool :=
  match registry !! hook with
  | Some _ => true
  | None => existsb (String.eqb hook) Object_prototype
  end.

(** [for (const hook of selectedHooks) if (!registry[hook]) ...]: the
    first selected hook that is missing, if any. *)
Fixpoint firstMissing (registry : gmap string RegistryItem)
    (selectedHooks : list string) : option string :=
  match selectedHooks with
  | [] => None
  | hook :: rest =>
      if negb (present registry hook) then Some hook
      else firstMissing registry rest
  end.

(** What the handler does with the selection: leave the process with a
    message and an exit code, or hand the selection to the resolver. *)
Inductive handled : Type :=
  | Exit (code : nat) (message : string)
  | Resolved (result : outcome FileMap).

Definition resolveSelected (depth : nat) (all : bool)
    (registry : gmap string RegistryItem) (selectedHooks : list string)
    : handled :=
  match (if negb all then firstMissing registry selectedHooks else None) with
  | Some hook => Exit 1 ("Hook " ++ hook ++ " not found in the registry.")
  | None =>
      if Nat.eqb (length selectedHooks) 0
      then Exit 0 "No hooks selected."
      else Resolved (resolveDependencies depth registry selectedHooks)
  end.

(** ** The file plans *)

(** [String.prototype.toUpperCase] on the ASCII letters. *)
Definition upper_ascii (c : ascii) : ascii :=
  let n := nat_of_ascii c in
  if (97 <=? n)%nat && (n <=? 122)%nat then ascii_of_nat (n - 32) else c.

Fixpoint toUpperCase (s : string) : string :=
  match s with
  | EmptyString => EmptyString
  | String c s' => String (upper_ascii c) (toUpperCase s')
  end.

(** [const language = config.typescript ? 'ts' : 'js'] *)
Definition language_of (typescript : bool) : string :=
  if typescript then "ts" else "js".

Section Plans.

(** [REPO_URLS] is a constant table of the CLI that is imported by the
    handler; it is taken as a parameter, indexed by the upper-cased
    language. *)
Variable REPO_URLS : string -> string.
Variables pathToLoadHooks pathToLoadUtils language : string.

(** The callback of [Array.from(dependencies.values()).map(...)]: the
    plan of a dependency, or [undefined] after pushing a package name.
    The final [throw] of the callback needs a type outside the four
    of [DependencyType]. *)
Definition planOf (dependency : Dependency) (packages : list string)
    : option FilePlan * list string :=
  match dep_type dependency with
  | hook_ =>
      let filePath := dep_name dependency ++ "/" ++ dep_name dependency in
      let directoryPath :=
        pathToLoadHooks ++ "/" ++ filePath ++ "." ++ language in
      let registryPath :=
        REPO_URLS (toUpperCase language) ++ "/hooks/" ++ filePath ++ "."
        ++ language in
      let indexPath := pathToLoadHooks ++ "/index." ++ language in
      (Some (mkFile (dep_name dependency) directoryPath registryPath
               (dep_type dependency) indexPath filePath), packages)
  | util_ =>
      let filePath := dep_name dependency in
      let directoryPath :=
        pathToLoadUtils ++ "/" ++ filePath ++ "." ++ language in
      let registryPath :=
        REPO_URLS (toUpperCase language) ++ "/utils/helpers/" ++ filePath
        ++ "." ++ language in
      let indexPath := pathToLoadUtils ++ "/index." ++ language in
      (Some (mkFile (dep_name dependency) directoryPath registryPath
               (dep_type dependency) indexPath filePath), packages)
  | local_ =>
      let filePath := dep_name dependency in
      let directoryPath :=
        pathToLoadHooks ++ "/" ++ dep_parent dependency ++ "/helpers/"
        ++ filePath ++ "." ++ language in
      let registryPath :=
        REPO_URLS (toUpperCase language) ++ "/hooks/"
        ++ dep_parent dependency ++ "/helpers/" ++ filePath ++ "."
        ++ language in
      let indexPath :=
        pathToLoadHooks ++ "/" ++ dep_parent dependency
        ++ "/helpers/index." ++ language in
      (Some (mkFile (dep_name dependency) directoryPath registryPath
               (dep_type dependency) indexPath filePath), packages)
  | package_ => (None, (packages ++ [dep_name dependency])%list)
  end.

(** [Array.prototype.map] with the [packages] array threaded through
    the calls of the callback. *)
Fixpoint mapPlans (dependencies : list Dependency) (packages : list string)
    : list (option FilePlan) * list string :=
  match dependencies with
  | [] => ([], packages)
  | dependency :: rest =>
      let '(plan, packages') := planOf dependency packages in
      let '(plans, packages'') := mapPlans rest packages' in
      (plan :: plans, packages'')
  end.

(** [.filter(Boolean)] *)
Fixpoint filterBoolean (plans : list (option FilePlan)) : list FilePlan :=
  match plans with
  | [] => []
  | Some plan :: rest => plan :: filterBoolean rest
  | None :: rest => filterBoolean rest
  end.

(** Lines 135-168 of the handler after [resolveDependencies] returned:
    the pair of [files] and [packages]. *)
Definition buildFiles (dependencies : FileMap)
    : list FilePlan * list string :=
  let '(plans, packages) := mapPlans (map_values dependencies) [] in
  (filterBoolean plans, packages).

End Plans.

(** ** Strings and paths of the runtime *)

(** JS truthiness of a string: every string but the empty one. *)
Definition truthy (s : string) : bool :=
  match s with
  | EmptyString => false
  | String _ _ => true
  end.

Definition LF : string := String "010"%char EmptyString.

(** [String.prototype.includes]: [sub] occurs in [s] at some offset. *)
Fixpoint includes (s sub : string) : bool :=
  String.prefix sub s
  || match s with
     | EmptyString => false
     | String _ s' => includes s' sub
     end.

Definition is_slash (c : option ascii) : bool :=
  match c with
  | Some c => Ascii.eqb c "/"%char
  | None => false
  end.

(** The loop of [path.dirname] (POSIX flavour of Node's [path]):
    [for (let i = path.length - 1; i >= 1; --i)], looking for the last
    slash that is followed by a character other than a slash. The
    result is the final value of [end], [None] standing for [-1]. *)
Fixpoint dirname_loop (path : string) (i : nat) (matchedSlash : bool)
    : option nat :=
  match i with
  | 0 => None
  | S i' =>
      if is_slash (String.get i path) then
        if negb matchedSlash then Some i
        else dirname_loop path i' matchedSlash
      else dirname_loop path i' false
  end.

Definition dirname (path : string) : string :=
  if Nat.eqb (String.length path) 0 then "."
  else
    let hasRoot := is_slash (String.get 0 path) in
    match dirname_loop path (String.length path - 1) true with
    | None => if hasRoot then "/" else "."
    | Some end_ =>
        if hasRoot && Nat.eqb end_ 1 then "//"
        else String.substring 0 end_ path
    end.

(** ** The world of the installer *)

Inductive event : Type :=
  | SpinnerStart (text : string)
  | SpinnerText (text : string)
  | SpinnerStop
  | SpinnerSucceed (text : string)
  | Prompt (message : string)
  | ConsoleLog (line : string)
  | Mkdir (directory : string)
  | Fetch (url : string)
  | WriteFile (path data : string)
  | AppendFile (path data : string).

(** The directories and the regular files on disk, and what the run
    did so far, oldest event first. A path stands for itself: the disk
    is taken to be case sensitive and without links, and the statements
    about it are about paths as spelled, so that two spellings of one
    file ([a/./b] and [a/b]) are outside their reach. *)
Record World : Type := mkWorld {
  dirs : gset string;
  contents : gmap string string;
  trace : list event
}.

Definition emit (e : event) (w : World) : World :=
  mkWorld (dirs w) (contents w) (trace w ++ [e]).

(** [fs.existsSync] *)
Definition existsSync (p : string) (w : World) : bool :=
  bool_decide (p ∈ dirs w)
  || match contents w !! p with Some _ => true | None => false end.

(** The directory and the chain of its parents, up to the fixed points
    ["/"] and ["."] of [dirname]. *)
Fixpoint ancestors (n : nat) (directory : string) : list string :=
  match n with
  | 0 => [directory]
  | S n' =>
      let parent := dirname directory in
      if String.eqb parent directory then [directory]
      else directory :: ancestors n' parent
  end.

(** A run of the loop ends normally or by an exception that nothing
    catches; the world is the one reached at that point. *)
Inductive installed : Type :=
  | Done (w : World)
  | Threw (error : string) (w : World).

(** The next statement runs only when the one before returned. *)
Definition andThen (r : installed) (k : World -> installed) : installed :=
  match r with
  | Done w => k w
  | Threw error w => Threw error w
  end.

Definition isFile (p : string) (w : World) : bool :=
  match contents w !! p with Some _ => true | None => false end.

(** The roots ["/"], ["//"] and ["."] are directories of every disk and
    need no entry in [dirs]. *)
Definition isDirectory (d : string) (w : World) : bool :=
  bool_decide (d ∈ dirs w) || String.eqb (dirname d) d || String.eqb d "//".

(** The error of opening [p] for writing, creating it when missing:
    none for a regular file; [EISDIR] for a directory; for a new file,
    none when the parent is a directory, [ENOTDIR] when a regular file
    lies on the way to it, [ENOENT] otherwise. *)
Definition openError (p : string) (w : World) : option string :=
  if isFile p w then None
  else if isDirectory p w then Some "EISDIR"
  else if isDirectory (dirname p) w then None
  else if existsb (fun a => isFile a w)
            (ancestors (String.length p) (dirname p))
  then Some "ENOTDIR"
  else Some "ENOENT".

(** [fs.mkdirSync(directory, { recursive: true })]: the directory and
    its missing parents are made, unless a regular file lies on the
    way ([ENOTDIR]) or at the path itself ([EEXIST]). *)
Definition mkdirSync (directory : string) (w : World) : installed :=
  if existsb (fun a => isFile a w)
       (ancestors (String.length directory) directory)
  then Threw (if isFile directory w then "EEXIST" else "ENOTDIR") w
  else
    Done (emit (Mkdir directory)
            (mkWorld (dirs w ∪ list_to_set
                                 (ancestors (String.length directory)
                                    directory))
               (contents w) (trace w))).

(** [fs.writeFileSync(p, data)] *)
Definition writeFileSync (p data : string) (w : World) : installed :=
  match openError p w with
  | Some error => Threw error w
  | None =>
      Done (emit (WriteFile p data)
              (mkWorld (dirs w) (<[p := data]> (contents w)) (trace w)))
  end.

(** [fs.appendFileSync(p, data)] *)
Definition appendFileSync (p data : string) (w : World) : installed :=
  match openError p w with
  | Some error => Threw error w
  | None =>
      Done (emit (AppendFile p data)
              (mkWorld (dirs w)
                 (<[p := default "" (contents w !! p) ++ data]> (contents w))
                 (trace w)))
  end.

Section Installer.

(** [chalk.green], the styling of a piece of text. *)
Variable chalk_green : string -> string.
(** [fetches.get(url)]: the body, or [None] when the request fails. *)
Variable network : string -> option string.

(** The export statement and the four statements on the index file at
    the end of the loop body. Reading a path that holds no regular file
    throws. *)
Definition exportStatement (filePath : string) : string :=
  "export * from './" ++ filePath ++ "';" ++ LF.

Definition updateIndex (indexPath filePath : string) (w : World)
    : installed :=
  andThen
    (if negb (existsSync indexPath w) then writeFileSync indexPath "" w
     else Done w)
    (fun w =>
       match contents w !! indexPath with
       | None => Threw "EISDIR" w
       | Some indexFileContent =>
           if negb (includes indexFileContent (exportStatement filePath))
           then appendFileSync indexPath (exportStatement filePath) w
           else Done w
       end).

(** The loop body after the confirmation: directory, fetch, write,
    index. *)
Definition installFile (file : FilePlan) (directory : string) (w : World)
    : installed :=
  andThen
    (if negb (existsSync directory w) then mkdirSync directory w else Done w)
    (fun w =>
       let w := emit (Fetch (registryPath file)) w in
       match network (registryPath file) with
       | None => Threw "fetch failed" w
       | Some data =>
           andThen (writeFileSync (directoryPath file) data w)
             (updateIndex (indexPath file) (filePath file))
       end).

(** [prompts({ type: 'confirm', ... })]: the next answer of the user;
    [None] is a cancelled prompt, whose [overwrite] is [undefined]. *)
Definition ask (answers : list (option bool))
    : option bool * list (option bool) :=
  match answers with
  | [] => (None, [])
  | answer :: rest => (answer, rest)
  end.

Definition confirmed (overwrite : option bool) : bool :=
  match overwrite with
  | Some true => true
  | _ => false
  end.

(** [for (const file of files) { ... }] *)
Fixpoint installFiles (files : list FilePlan) (answers : list (option bool))
    (w : World) : installed :=
  match files with
  | [] => Done w
  | file :: rest =>
      let name := file_name file in
      let w := emit (SpinnerText ("Installing " ++ name ++ "...")) w in
      let directory := dirname (directoryPath file) in
      if truthy directory then
        let w := emit SpinnerStop w in
        let w :=
          emit (Prompt ("File " ++ name
                        ++ " already exists. Would you like to overwrite?"))
            w in
        let '(overwrite, answers') := ask answers in
        if negb (confirmed overwrite) then
          installFiles rest answers'
            (emit (ConsoleLog ("Skipped " ++ name
                               ++ ". To overwrite, run with the "
                               ++ chalk_green "--overwrite" ++ " flag."))
               w)
        else
          match installFile file directory
                  (emit (SpinnerStart ("Installing " ++ name ++ "...")) w)
          with
          | Done w' => installFiles rest answers' w'
          | Threw error w' => Threw error w'
          end
      else
        match installFile file directory w with
        | Done w' => installFiles rest answers w'
        | Threw error w' => Threw error w'
        end
  end.

(** Lines 171-207: the spinner around the loop. *)
Definition install (files : list FilePlan) (answers : list (option bool))
    (w : World) : installed :=
  match installFiles files answers
          (emit (SpinnerStart "Installing files...") w) with
  | Done w' => Done (emit (SpinnerSucceed "Done.") w')
  | Threw error w' => Threw error w'
  end.

End Installer.

(** Whether a prompt was shown for the file called [name]. *)
Definition is_prompt_for (name : string) (e : event) : bool :=
  match e with
  | Prompt message =>
      String.eqb message
        ("File " ++ name ++ " already exists. Would you like to overwrite?")
  | _ => false
  end.

Definition prompted (name : string) (w : World) : bool :=
  existsb (is_prompt_for name) (trace w).

Definition empty_world : World := mkWorld ∅ ∅ [].

(** ** The calls of the traversal *)

(** The hooks on which [resolveDependency] is called, in call order:
    the same recursion as [resolveDependency], keeping the argument of
    each call instead of its writes. *)
Fixpoint visitOrder (depth : nat) (registry : gmap string RegistryItem)
    (hook : string) (visited : list string) : outcome (list string) :=
  match depth with
  | 0 => StackExhausted
  | S depth' =>
      match registry !! hook with
      | None => TypeError hook
      | Some item =>
          forOf (visitOrder depth' registry) (item_hooks item)
                (visited ++ [hook])%list
      end
  end.

Definition visitOrders (depth : nat) (registry : gmap string RegistryItem)
    (hooks : list string) : outcome (list string) :=
  forOf (visitOrder depth registry) hooks [].

(** The writes of a sequence of calls, replayed in order. *)
Definition replay (registry : gmap string RegistryItem)
    (visited : list string) (files : FileMap) : FileMap :=
  fold_left
    (fun fs hook =>
       match registry !! hook with
       | Some item => record hook item fs
       | None => fs
       end)
    visited files.

(** The names written by a call on [hook]: the hook itself and the
    three arrays of leaves. *)
Definition written (hook : string) (item : RegistryItem) : list string :=
  (hook :: item_utils item ++ item_local item ++ item_packages item)%list.

Definition leaves (item : RegistryItem) : list string :=
  (item_utils item ++ item_local item ++ item_packages item)%list.

(** The names that can be the argument of a call: the roots, and the
    members of the [hooks] array of an item whose key is one. *)
Inductive callable (registry : gmap string RegistryItem)
    (roots : list string) : string -> Prop :=
  | callable_root hook :
      hook ∈ roots -> callable registry roots hook
  | callable_hook hook item hook' :
      callable registry roots hook ->
      registry !! hook = Some item ->
      hook' ∈ item_hooks item ->
      callable registry roots hook'.

(** A registry in which the name of a helper is also a key. *)
Definition shadowed_registry : gmap string RegistryItem :=
  <[ "useA" := mkItem "useA" [] ["useB"] [] [] ]>
    {[ "useB" := mkItem "useB" [] ["deep"] [] [] ]}.

(** Two units that share a helper. *)
Definition shared_registry : gmap string RegistryItem :=
  <[ "A" := mkItem "A" [] ["h"] [] [] ]>
    {[ "B" := mkItem "B" [] ["h"] [] [] ]}.

(** A unit whose key and display name differ. *)
Definition renamed_registry : gmap string RegistryItem :=
  {[ "use-foo" := mkItem "useFoo" [] [] ["helper"] [] ]}.

(** A unit that refers to a hook the registry does not have. *)
Definition dangling_registry : gmap string RegistryItem :=
  {[ "a" := mkItem "a" ["ghost"] [] [] [] ]}.


(** ** Invariants of the resolution result *)

(** The entry [(k, d)] is one that a call on [hook], whose item is
    [item], writes. *)
Definition recorded_by (hook : string) (item : RegistryItem)
    (entry : string * Dependency) : Prop :=
  dep_name entry.2 = entry.1
  /\ dep_parent entry.2 = item_name item
  /\ match dep_type entry.2 with
     | hook_ => entry.1 = hook
     | util_ => entry.1 ∈ item_utils item
     | local_ => entry.1 ∈ item_local item
     | package_ => entry.1 ∈ item_packages item
     end.

(** The entry comes from a call that the traversal from [roots] can
    make. *)
Definition recorded (registry : gmap string RegistryItem)
    (roots : list string) (entry : string * Dependency) : Prop :=
  exists hook item,
    callable registry roots hook
    /\ registry !! hook = Some item
    /\ recorded_by hook item entry.

Definition is_package (d : Dependency) : bool :=
  DependencyType_eqb (dep_type d) package_.

(** The plan of the hook "useFoo" for a TypeScript project whose hooks
    live under /app/src/hooks. *)
Definition useFoo_plan : FilePlan :=
  mkFile "useFoo" "/app/src/hooks/useFoo/useFoo.ts"
    "https://repo/hooks/useFoo/useFoo.ts" hook_
    "/app/src/hooks/index.ts" "useFoo/useFoo".

(** A project in which the hook "useBar" is installed and exported. *)
Definition installed_world : World :=
  mkWorld {[ "/app/src/hooks"; "/app/src/hooks/useBar" ]}
    (<[ "/app/src/hooks/index.ts" :=
          "export * from './useBar/useBar';" ++ LF ]>
       {[ "/app/src/hooks/useBar/useBar.ts" := "export const useBar = 1;" ]})
    [].


(** ** Further samples *)

(** A unit with a sub-unit; both share the helper "h". *)
Definition nested_registry : gmap string RegistryItem :=
  <[ "useA" := mkItem "useA" ["useB"] ["h"] [] [] ]>
    {[ "useB" := mkItem "useB" [] ["h"] ["own"] ["pkg"] ]}.

Definition nested_rank (hook : string) : nat :=
  if String.eqb hook "useA" then 1 else 0.

(** ** Observations on a run of the installer *)

(** The world in which a run ended, normally or not. *)
Definition world_of (r : installed) : World :=
  match r with
  | Done w => w
  | Threw _ w => w
  end.

Definition is_prompt (e : event) : bool :=
  match e with
  | Prompt _ => true
  | _ => false
  end.

(** The number of prompts shown so far. *)
Definition prompts_shown (w : World) : nat :=
  length (List.filter is_prompt (trace w)).

(** The plan of the helper "index" of a project whose helpers live
    under /app/src/utils. *)
Definition index_plan : FilePlan :=
  mkFile "index" "/app/src/utils/index.ts"
    "https://repo/utils/helpers/index.ts" util_
    "/app/src/utils/index.ts" "index".

(** The paths that the plans may write: destinations and indexes. *)
Definition touched_paths (files : list FilePlan) : list string :=
  flat_map (fun file => [directoryPath file; indexPath file]) files.

(** From [w] to [w'] no directory and no file went away, and the files
    outside [touched] kept their content. *)
Definition keeps (touched : list string) (w w' : World) : Prop :=
  dirs w ⊆ dirs w'
  /\ (forall p, p ∉ touched -> contents w' !! p = contents w !! p)
  /\ (forall p, is_Some (contents w !! p) -> is_Some (contents w' !! p)).

(** ** The handler as a whole *)

(** The fields of the project configuration that the handler reads. *)
Record Config : Type := mkConfig {
  typescript : bool;
  hookPath : string;
  utilsPath : string
}.

(** The parsed options of the command. *)
Record AddOptions : Type := mkOptions {
  opt_hooks : list string;
  opt_all : bool
}.

(** What the handler meets outside the registry: the configuration
    ([None] when [getConfig] finds none), the data of the registry
    response with the own keys of the object in the order of
    [Object.keys], the choices ticked in the multi-select prompt
    ([None] when the prompt is cancelled), the outcome of [loadConfig]
    (the message of a failure, or the path matcher made from it), and
    the answers to the overwrite prompts. *)
Record Surroundings : Type := mkSurroundings {
  sur_config : option Config;
  sur_registry : option (gmap string RegistryItem);
  sur_keys : list string;
  sur_ticked : option (list nat);
  sur_tsconfig : option string + (string -> option string);
  sur_answers : list (option bool)
}.

(** How a run of the handler ends: by [process.exit], by an exception
    that nothing catches, or by returning. *)
Inductive uncaught : Type :=
  | TsconfigFailed (message : option string)
  | ResolverThrew (result : outcome FileMap)
  | InstallerThrew (error : string).

Inductive ended : Type :=
  | ProcessExit (code : nat) (w : World)
  | Uncaught (error : uncaught) (w : World)
  | Completed (w : World).

(** [Object.values(registry).map((hook) => ({ title: hook.name, value:
    hook.name, selected: false }))]: the values of the choices. *)
Definition choiceValues (registry : gmap string RegistryItem)
    (keys : list string) : list string :=
  omap (fun key => item_name <$> registry !! key) keys.

(** The [hooks] answer of the multi-select prompt: the values of the
    ticked choices. *)
Definition multiselect (values : list string) (ticked : option (list nat))
    : option (list string) :=
  match ticked with
  | None => None
  | Some indexes => Some (omap (fun i => values !! i) indexes)
  end.

(** Lines 88-103: the selection. An answer of the prompt replaces the
    empty selection; an array, even empty, is truthy. *)
Definition selectHooks (options : AddOptions)
    (registry : gmap string RegistryItem) (keys : list string)
    (ticked : option (list nat)) : list string :=
  let selectedHooks := if opt_all options then keys else opt_hooks options in
  if Nat.eqb (length selectedHooks) 0 then
    match multiselect (choiceValues registry keys) ticked with
    | Some hooks => hooks
    | None => selectedHooks
    end
  else selectedHooks.

(** [!pathToLoadHooks]: a path that is [undefined] or empty does not
    count. *)
Definition usable (p : option string) : option string :=
  match p with
  | Some s => if truthy s then Some s else None
  | None => None
  end.

Section Handler.

(** Styling of [chalk], the table of repository URLs, the transport
    and the stack available to the resolver. *)
Variables chalk_green chalk_cyan : string -> string.
Variable REPO_URLS : string -> string.
Variable network : string -> option string.
Variable depth : nat.

Definition handler (options : AddOptions) (around : Surroundings) (w : World)
    : ended :=
  match sur_config around with
  | None =>
      ProcessExit 1
        (emit (ConsoleLog ("Configuration is missing. Please run "
                           ++ chalk_green "init"
                           ++ " to create a reactuse.config.json file."))
           w)
  | Some config =>
      match sur_registry around with
      | None =>
          ProcessExit 1
            (emit (ConsoleLog "Registry is missing. Please check the url.") w)
      | Some registry =>
          let w :=
            if Nat.eqb (length (if opt_all options then sur_keys around
                                else opt_hooks options)) 0
            then emit (Prompt ("Which " ++ chalk_cyan "hooks"
                               ++ " would you like to add?")) w
            else w in
          let selectedHooks :=
            selectHooks options registry (sur_keys around)
              (sur_ticked around) in
          match (if negb (opt_all options)
                 then firstMissing registry selectedHooks else None) with
          | Some hook =>
              ProcessExit 1
                (emit (ConsoleLog ("Hook " ++ hook
                                   ++ " not found in the registry.")) w)
          | None =>
              if Nat.eqb (length selectedHooks) 0 then
                ProcessExit 0 (emit (ConsoleLog "No hooks selected.") w)
              else
                let language := language_of (typescript config) in
                match sur_tsconfig around with
                | inl message => Uncaught (TsconfigFailed message) w
                | inr matchPath =>
                    match usable (matchPath (hookPath config)),
                          usable (matchPath (utilsPath config)) with
                    | Some pathToLoadHooks, Some pathToLoadUtils =>
                        match resolveDependencies depth registry
                                selectedHooks with
                        | Returned dependencies =>
                            let files :=
                              (buildFiles REPO_URLS pathToLoadHooks
                                 pathToLoadUtils language dependencies).1 in
                            match install chalk_green network files
                                    (sur_answers around) w with
                            | Done w' => Completed w'
                            | Threw error w' =>
                                Uncaught (InstallerThrew error) w'
                            end
                        | result => Uncaught (ResolverThrew result) w
                        end
                    | _, _ =>
                        ProcessExit 1
                          (emit (ConsoleLog "Failed to load paths.") w)
                    end
                end
          end
      end
  end.

End Handler.

(** The surroundings of a run in the project of [installed_world] on
    the registry in which key and display name differ: nothing is named
    on the command line and the only choice of the prompt is ticked. *)
Definition renamed_surroundings : Surroundings :=
  mkSurroundings (Some (mkConfig true "@/hooks" "@/utils"))
    (Some renamed_registry) ["use-foo"] (Some [0])
    (inr (fun alias => Some ("/app/src" ++ String.substring 1 10 alias)))
    [].

(** The trace of [w'] continues the trace of [w]. *)
Definition extends (w w' : World) : Prop :=
  exists later, trace w' = (trace w ++ later)%list.

(** * Properties *)

(** ** The map *)

Lemma map_get_set_eq k v m : map_get k (map_set k v m) = Some v.
Proof.
  induction m as [|[k' v'] m IH]; simpl.
  - now rewrite String.eqb_refl.
  - destruct (String.eqb k k') eqn:E; simpl; rewrite ?String.eqb_refl, ?E; auto.
Qed.

Lemma map_get_set_ne k k' v m :
  k <> k' -> map_get k' (map_set k v m) = map_get k' m.
Proof.
  intros Hne. induction m as [|[k0 v0] m IH]; simpl.
  - destruct (String.eqb_spec k' k); congruence.
  - destruct (String.eqb_spec k k0) as [->|Hk]; simpl.
    + destruct (String.eqb_spec k' k0); congruence.
    + now rewrite IH.
Qed.

Lemma map_keys_set k v m :
  map_keys (map_set k v m)
  = if existsb (String.eqb k) (map_keys m) then map_keys m
    else (map_keys m ++ [k])%list.
Proof.
  unfold map_keys.
  induction m as [|[k0 v0] m IH]; simpl; [reflexivity|].
  destruct (String.eqb_spec k k0) as [->|Hk]; simpl; [reflexivity|].
  rewrite IH.
  now destruct (existsb (String.eqb k) (map fst m)).
Qed.

Lemma existsb_eqb_elem k (l : list string) :
  existsb (String.eqb k) l = true <-> k ∈ l.
Proof.
  rewrite existsb_exists, list_elem_of_In. split.
  - intros (x & Hx & E). apply String.eqb_eq in E. now subst.
  - intros H. exists k. split; [assumption|apply String.eqb_refl].
Qed.

Lemma map_keys_set_NoDup k v m :
  NoDup (map_keys m) -> NoDup (map_keys (map_set k v m)).
Proof.
  intros H. rewrite map_keys_set.
  destruct (existsb (String.eqb k) (map_keys m)) eqn:E; [assumption|].
  apply NoDup_app. split; [assumption|]. split.
  - intros x Hx Hk. apply list_elem_of_singleton in Hk. subst x.
    apply existsb_eqb_elem in Hx. congruence.
  - apply NoDup_singleton.
Qed.

Lemma map_set_Forall (P : string * Dependency -> Prop) k v m :
  Forall P m -> P (k, v) -> Forall P (map_set k v m).
Proof.
  intros Hm Hkv. induction Hm as [|[k0 v0] m H0 Hm IH]; simpl.
  - constructor; [assumption|constructor].
  - destruct (String.eqb k k0); constructor; assumption.
Qed.

Lemma map_get_Some_elem k d m : map_get k m = Some d -> (k, d) ∈ m.
Proof.
  induction m as [|[k0 v0] m IH]; simpl; [discriminate|].
  destruct (String.eqb_spec k k0) as [->|Hk].
  - intros [= ->]. apply list_elem_of_here.
  - intros H. apply list_elem_of_further. auto.
Qed.

Lemma elem_map_get k d m :
  NoDup (map_keys m) -> (k, d) ∈ m -> map_get k m = Some d.
Proof.
  induction m as [|[k0 v0] m IH]; simpl; intros Hnd Hin.
  - now apply not_elem_of_nil in Hin.
  - apply NoDup_cons in Hnd as [Hk0 Hnd].
    apply elem_of_cons in Hin as [[= <- <-]|Hin].
    + now rewrite String.eqb_refl.
    + destruct (String.eqb_spec k k0) as [->|Hk]; [|auto].
      exfalso. apply Hk0. unfold map_keys.
      apply list_elem_of_fmap. exists (k0, d). split; [reflexivity|assumption].
Qed.

(** ** The writes of one call *)

Section SetEach.

Variables (ty : DependencyType) (parent : string).

Lemma setEach_fold names files :
  setEach ty parent names files
  = fold_left (fun fs n => map_set n (mkDep ty n parent) fs) names files.
Proof. unfold setEach. now destruct names. Qed.

Lemma setEach_NoDup names files :
  NoDup (map_keys files) -> NoDup (map_keys (setEach ty parent names files)).
Proof.
  rewrite setEach_fold. revert files.
  induction names as [|n names IH]; simpl; intros files H; [assumption|].
  apply IH, map_keys_set_NoDup, H.
Qed.

Lemma setEach_Forall (P : string * Dependency -> Prop) names files :
  Forall P files ->
  (forall n, n ∈ names -> P (n, mkDep ty n parent)) ->
  Forall P (setEach ty parent names files).
Proof.
  rewrite setEach_fold. revert files.
  induction names as [|n names IH]; simpl; intros files H Hn; [assumption|].
  apply IH.
  - apply map_set_Forall; [assumption|]. apply Hn, list_elem_of_here.
  - intros n' Hn'. apply Hn, list_elem_of_further, Hn'.
Qed.

Lemma setEach_get_other l names files :
  l ∉ names -> map_get l (setEach ty parent names files) = map_get l files.
Proof.
  rewrite setEach_fold. revert files.
  induction names as [|n names IH]; simpl; intros files H; [reflexivity|].
  apply not_elem_of_cons in H as [Hne H].
  rewrite IH by assumption. apply map_get_set_ne. congruence.
Qed.

Lemma setEach_get l names files :
  l ∈ names ->
  map_get l (setEach ty parent names files) = Some (mkDep ty l parent).
Proof.
  rewrite setEach_fold. revert files.
  induction names as [|n names IH]; simpl; intros files H.
  - now apply not_elem_of_nil in H.
  - destruct (decide (l ∈ names)) as [Hin|Hout]; [now apply IH|].
    apply elem_of_cons in H as [->|H]; [|contradiction].
    pose proof (setEach_get_other n names
                  (map_set n (mkDep ty n parent) files) Hout) as E.
    rewrite setEach_fold in E. rewrite E. apply map_get_set_eq.
Qed.

End SetEach.

Lemma record_NoDup hook item files :
  NoDup (map_keys files) -> NoDup (map_keys (record hook item files)).
Proof.
  intros H. unfold record.
  repeat apply setEach_NoDup. apply map_keys_set_NoDup, H.
Qed.

Lemma record_Forall (P : string * Dependency -> Prop) hook item files :
  Forall P files ->
  (forall entry, recorded_by hook item entry -> P entry) ->
  Forall P (record hook item files).
Proof.
  intros H HP. unfold record.
  repeat apply setEach_Forall; try apply map_set_Forall; try assumption;
    intros; apply HP; repeat split; simpl; auto.
Qed.

(** Every name a call writes ends with that call's display name as
    parent, whatever the map held before. *)
Lemma record_get hook item files l :
  l ∈ written hook item ->
  exists d, map_get l (record hook item files) = Some d
            /\ dep_name d = l /\ dep_parent d = item_name item.
Proof.
  intros Hl. unfold record.
  destruct (decide (l ∈ item_packages item)) as [Hp|Hp].
  { eexists. split; [apply setEach_get, Hp|]. split; reflexivity. }
  rewrite setEach_get_other by assumption.
  destruct (decide (l ∈ item_local item)) as [Hlo|Hlo].
  { eexists. split; [apply setEach_get, Hlo|]. split; reflexivity. }
  rewrite setEach_get_other by assumption.
  destruct (decide (l ∈ item_utils item)) as [Hu|Hu].
  { eexists. split; [apply setEach_get, Hu|]. split; reflexivity. }
  rewrite setEach_get_other by assumption.
  unfold written in Hl. apply elem_of_cons in Hl as [->|Hl].
  - eexists. split; [apply map_get_set_eq|]. split; reflexivity.
  - rewrite !elem_of_app in Hl. tauto.
Qed.

Lemma record_get_other hook item files l :
  l ∉ written hook item -> map_get l (record hook item files) = map_get l files.
Proof.
  intros Hl. unfold written in Hl.
  apply not_elem_of_cons in Hl as [Hne Hl].
  rewrite !not_elem_of_app in Hl. destruct Hl as (Hu & Hlo & Hp).
  unfold record. rewrite !setEach_get_other by assumption.
  apply map_get_set_ne. congruence.
Qed.

(** ** The traversal *)

Lemma forOf_cons {S : Type} (body : string -> S -> outcome S) x xs s :
  forOf body (x :: xs) s
  = match body x s with
    | Returned s' => forOf body xs s'
    | TypeError h => TypeError h
    | StackExhausted => StackExhausted
    end.
Proof. reflexivity. Qed.

Lemma resolveDependency_S depth registry hook files :
  resolveDependency (S depth) registry hook files
  = match registry !! hook with
    | None => TypeError hook
    | Some item =>
        forOf (resolveDependency depth registry) (item_hooks item)
              (record hook item files)
    end.
Proof. reflexivity. Qed.

Lemma visitOrder_S depth registry hook visited :
  visitOrder (S depth) registry hook visited
  = match registry !! hook with
    | None => TypeError hook
    | Some item =>
        forOf (visitOrder depth registry) (item_hooks item)
              (visited ++ [hook])%list
    end.
Proof. reflexivity. Qed.

Section Traversal.

Variable registry : gmap string RegistryItem.
Variable roots : list string.

Lemma callable_hooks hook item :
  callable registry roots hook ->
  registry !! hook = Some item ->
  forall h, h ∈ item_hooks item -> callable registry roots h.
Proof. intros Hc Hi h Hh. eapply callable_hook; eassumption. Qed.

(** A property of the map that every call of the traversal keeps
    holds of the result. *)
Lemma resolve_invariant (P : FileMap -> Prop) :
  (forall hook item files,
      callable registry roots hook -> registry !! hook = Some item ->
      P files -> P (record hook item files)) ->
  forall depth hooks files files',
    (forall h, h ∈ hooks -> callable registry roots h) ->
    P files ->
    forOf (resolveDependency depth registry) hooks files = Returned files' ->
    P files'.
Proof.
  intros Hrec depth.
  induction depth as [|depth IHd];
    induction hooks as [|h hooks IHh]; simpl; intros files files' Hc HP E;
    try (injection E as <-; assumption); try discriminate.
  assert (callable registry roots h) as Hh by apply Hc, list_elem_of_here.
  destruct (registry !! h) as [item|] eqn:Hi; [|discriminate].
  destruct (forOf (resolveDependency depth registry) (item_hooks item)
              (record h item files)) as [files1| |] eqn:E1;
    try discriminate.
  apply (IHh files1 files'); [|  |assumption].
  - intros h' Hh'. apply Hc, list_elem_of_further, Hh'.
  - apply (IHd (item_hooks item) (record h item files) files1);
      eauto using callable_hooks.
Qed.

(** The result is the replay of the calls, each of which is on a
    callable name that the registry has. *)
Lemma resolve_visit depth :
  forall hooks files visited,
    (forall h, h ∈ hooks -> callable registry roots h) ->
    match forOf (resolveDependency depth registry) hooks files with
    | Returned files' =>
        exists calls,
          forOf (visitOrder depth registry) hooks visited
          = Returned (visited ++ calls)%list
          /\ files' = replay registry calls files
          /\ Forall (callable registry roots) calls
          /\ Forall (fun h => is_Some (registry !! h)) calls
    | TypeError h =>
        forOf (visitOrder depth registry) hooks visited = TypeError h
    | StackExhausted =>
        forOf (visitOrder depth registry) hooks visited = StackExhausted
    end.
Proof.
  induction depth as [|depth IHd];
    induction hooks as [|h hooks IHh]; intros files visited Hc.
  - exists []. rewrite app_nil_r. repeat split; constructor.
  - reflexivity.
  - exists []. rewrite app_nil_r. repeat split; constructor.
  - assert (callable registry roots h) as Hh by apply Hc, list_elem_of_here.
    rewrite !forOf_cons, resolveDependency_S, visitOrder_S.
    destruct (registry !! h) as [item|] eqn:Hi; [|reflexivity].
    specialize (IHd (item_hooks item) (record h item files)
                  (visited ++ [h])%list (callable_hooks h item Hh Hi)).
    destruct (forOf (resolveDependency depth registry) (item_hooks item)
                (record h item files)) as [files1| |]; [|now rewrite IHd..].
    destruct IHd as (calls1 & E1 & -> & Hc1 & Hp1). rewrite E1.
    specialize (IHh (replay registry calls1 (record h item files))
                  ((visited ++ [h]) ++ calls1)%list).
    destruct (forOf (resolveDependency (S depth) registry) hooks
                (replay registry calls1 (record h item files)))
      as [files2| |]; [|now rewrite IHh; auto using list_elem_of_further..].
    destruct IHh as (calls2 & E2 & -> & Hc2 & Hp2);
      [auto using list_elem_of_further|].
    exists (h :: calls1 ++ calls2)%list. rewrite E2. repeat split.
    + f_equal. now rewrite <- !app_assoc.
    + unfold replay. simpl. rewrite fold_left_app, Hi. reflexivity.
    + constructor; [assumption|]. now apply Forall_app.
    + constructor; [now rewrite Hi|]. now apply Forall_app.
Qed.

End Traversal.

Lemma callable_refl_roots registry roots :
  forall h, h ∈ roots -> callable registry roots h.
Proof. intros h Hh. now apply callable_root. Qed.

Lemma resolveDependencies_NoDup depth registry roots files :
  resolveDependencies depth registry roots = Returned files ->
  NoDup (map_keys files).
Proof.
  intros E.
  apply (resolve_invariant registry roots (fun fs => NoDup (map_keys fs)))
    with (depth := depth) (hooks := roots) (files := []);
    auto using callable_refl_roots, record_NoDup.
  apply NoDup_nil. exact I.
Qed.

Lemma resolveDependencies_recorded depth registry roots files :
  resolveDependencies depth registry roots = Returned files ->
  Forall (recorded registry roots) files.
Proof.
  intros E.
  apply (resolve_invariant registry roots (Forall (recorded registry roots)))
    with (depth := depth) (hooks := roots) (files := []);
    auto using callable_refl_roots.
  intros hook item fs Hc Hi Hfs. apply record_Forall; [assumption|].
  intros entry He. exists hook, item. auto.
Qed.

(** ** The file plans *)

Section PlanFacts.

Variable REPO_URLS : string -> string.
Variables pathToLoadHooks pathToLoadUtils language : string.

Local Notation "'plan_'" :=
  (planOf REPO_URLS pathToLoadHooks pathToLoadUtils language).
Local Notation "'mapPlans_'" :=
  (mapPlans REPO_URLS pathToLoadHooks pathToLoadUtils language).
Local Notation "'buildFiles_'" :=
  (buildFiles REPO_URLS pathToLoadHooks pathToLoadUtils language).

Lemma planOf_packages d packages :
  plan_ d packages
  = ((plan_ d []).1,
     (packages ++ if is_package d then [dep_name d] else [])%list).
Proof.
  unfold planOf, is_package.
  destruct (dep_type d); simpl; now rewrite ?app_nil_r.
Qed.

Lemma mapPlans_spec deps packages :
  mapPlans_ deps packages
  = (map (fun d => (plan_ d []).1) deps,
     (packages ++ map dep_name (List.filter is_package deps))%list).
Proof.
  revert packages. induction deps as [|d deps IH]; intros packages; simpl.
  - now rewrite app_nil_r.
  - rewrite planOf_packages, IH. f_equal.
    destruct (is_package d); simpl; now rewrite <- ?app_assoc, ?app_nil_r.
Qed.

Lemma filterBoolean_names deps :
  map file_name (filterBoolean (map (fun d => (plan_ d []).1) deps))
  = map dep_name (List.filter (fun d => negb (is_package d)) deps).
Proof.
  induction deps as [|d deps IH]; simpl; [reflexivity|].
  unfold planOf at 1, is_package at 1.
  destruct (dep_type d); simpl; now rewrite IH.
Qed.

Lemma filterBoolean_length deps :
  length (filterBoolean (map (fun d => (plan_ d []).1) deps))
  + length (List.filter is_package deps)
  = length deps.
Proof.
  induction deps as [|d deps IH]; simpl; [reflexivity|].
  unfold planOf at 1, is_package at 1.
  destruct (dep_type d); simpl; lia.
Qed.

Lemma buildFiles_spec dependencies :
  buildFiles_ dependencies
  = (filterBoolean (map (fun d => (plan_ d []).1) (map_values dependencies)),
     map dep_name (List.filter is_package (map_values dependencies))).
Proof. unfold buildFiles. now rewrite mapPlans_spec. Qed.

End PlanFacts.

(** Splitting a list without repeated names by a test keeps the names
    apart. *)
Lemma NoDup_partition {A B : Type} (f : A -> B) (p : A -> bool) (l : list A) :
  NoDup (map f l) ->
  NoDup (map f (List.filter (fun a => negb (p a)) l)
         ++ map f (List.filter p l)).
Proof.
  induction l as [|a l IH]; simpl; intros H; [constructor|].
  apply NoDup_cons in H as [Ha H]. specialize (IH H).
  assert (forall q, f a ∉ map f (List.filter q l)) as Hout.
  { intros q Hin. apply Ha. apply list_elem_of_In, in_map_iff in Hin.
    destruct Hin as (x & <- & Hx). apply filter_In in Hx as [Hx _].
    apply list_elem_of_In, in_map, Hx. }
  destruct (p a); simpl.
  - apply NoDup_app in IH as (H1 & H2 & H3). apply NoDup_app.
    split; [assumption|]. split.
    + intros x Hx Hx'. apply elem_of_cons in Hx' as [->|Hx'].
      * now apply (Hout (fun a => negb (p a))).
      * now apply (H2 x).
    + apply NoDup_cons. split; [apply Hout|assumption].
  - apply NoDup_cons. split; [|assumption].
    rewrite elem_of_app. intros [Hin|Hin]; now apply Hout in Hin.
Qed.

Lemma recorded_names registry roots files :
  Forall (recorded registry roots) files ->
  map dep_name (map_values files) = map_keys files.
Proof.
  unfold map_values, map_keys.
  induction 1 as [|[k d] files (h & item & _ & _ & Hn & _) _ IH]; simpl;
    [reflexivity|].
  simpl in Hn. now rewrite Hn, IH.
Qed.

(** ** Resolution and plans of the sample registry *)

Example resolve_useFoo :
  resolveDependencies 5 (useFoo_registry "useFoo") ["useFoo"]
  = Returned [("useFoo", mkDep hook_ "useFoo" "useFoo");
              ("formatDate", mkDep util_ "formatDate" "useFoo");
              ("left-pad", mkDep package_ "left-pad" "useFoo")].
Proof. vm_compute. reflexivity. Qed.

(** C4. For the registry whose only entry maps "useFoo" to no
    sub-units, the shared helper "formatDate", no local helpers and the
    package "left-pad", and for every extension [x], every pair of
    roots and every display name of the entry: resolving ["useFoo"]
    (with at least one frame of stack) returns, and the plans built from
    the result are exactly one unit plan with destination
    [{hooksRoot}/useFoo/useFoo.x] followed by one helper plan with
    destination [{utilsRoot}/formatDate.x], no local-helper plan, and
    the package list ["left-pad"]. *)
Theorem plan_correctness_useFoo (REPO_URLS : string -> string)
    (hooksRoot utilsRoot x display : string) (depth : nat) :
  exists dependencies,
    resolveDependencies (S depth) (useFoo_registry display) ["useFoo"]
    = Returned dependencies
    /\ buildFiles REPO_URLS hooksRoot utilsRoot x dependencies
       = ([ mkFile "useFoo"
              (hooksRoot ++ "/useFoo/useFoo." ++ x)
              (REPO_URLS (toUpperCase x) ++ "/hooks/useFoo/useFoo." ++ x)
              hook_
              (hooksRoot ++ "/index." ++ x)
              "useFoo/useFoo";
            mkFile "formatDate"
              (utilsRoot ++ "/formatDate." ++ x)
              (REPO_URLS (toUpperCase x) ++ "/utils/helpers/formatDate." ++ x)
              util_
              (utilsRoot ++ "/index." ++ x)
              "formatDate" ],
          ["left-pad"]).
Proof.
  eexists. split.
  - unfold resolveDependencies, useFoo_registry.
    rewrite forOf_cons, resolveDependency_S, lookup_singleton_eq.
    reflexivity.
  - reflexivity.
Qed.

(** C5. For every graph that the resolver returns, the plan builder
    puts each node in exactly one of the two outputs: a node of kind
    package has its name in the package list and in no file plan, a
    node of any other kind has its name in a file plan and not in the
    package list; no name occurs twice across the two outputs; and the
    number of file plans plus the number of packages is the number of
    nodes. *)
Theorem partition_completeness (REPO_URLS : string -> string)
    (hooksRoot utilsRoot language : string) (depth : nat)
    (registry : gmap string RegistryItem) (roots : list string)
    (dependencies : FileMap) :
  resolveDependencies depth registry roots = Returned dependencies ->
  let out := buildFiles REPO_URLS hooksRoot utilsRoot language dependencies in
  (forall k d, (k, d) ∈ dependencies ->
     if is_package d
     then k ∈ out.2 /\ k ∉ map file_name out.1
     else k ∈ map file_name out.1 /\ k ∉ out.2)
  /\ NoDup (map file_name out.1 ++ out.2)
  /\ length out.1 + length out.2 = length dependencies.
Proof.
  intros E out. subst out. rewrite buildFiles_spec. simpl.
  pose proof (resolveDependencies_NoDup _ _ _ _ E) as Hnd.
  pose proof (resolveDependencies_recorded _ _ _ _ E) as Hrec.
  rewrite filterBoolean_names.
  assert (NoDup (map dep_name
                   (List.filter (fun d => negb (is_package d))
                      (map_values dependencies))
                 ++ map dep_name
                      (List.filter is_package (map_values dependencies))))
    as Hpart.
  { apply NoDup_partition.
    now rewrite (recorded_names _ _ _ Hrec). }
  split; [|split; [assumption|]].
  - intros k d Hin.
    assert (dep_name d = k) as Hk.
    { rewrite Forall_forall in Hrec.
      destruct (Hrec _ Hin) as (h & item & _ & _ & Hn & _). exact Hn. }
    assert (d ∈ map_values dependencies) as Hd.
    { unfold map_values. apply list_elem_of_fmap. now exists (k, d). }
    apply NoDup_app in Hpart as (_ & Hdisj & _).
    destruct (is_package d) eqn:Hp.
    + assert (k ∈ map dep_name
                    (List.filter is_package (map_values dependencies))) as Hin'.
      { subst k. apply list_elem_of_In, in_map, filter_In.
        split; [now apply list_elem_of_In|assumption]. }
      split; [assumption|]. intros Hf. now apply (Hdisj k).
    + assert (k ∈ map dep_name
                    (List.filter (fun d => negb (is_package d))
                       (map_values dependencies))) as Hin'.
      { subst k. apply list_elem_of_In, in_map, filter_In.
        split; [now apply list_elem_of_In|now rewrite Hp]. }
      split; [assumption|]. now apply Hdisj.
  - rewrite length_map, filterBoolean_length.
    unfold map_values. apply length_map.
Qed.

Lemma partition_completeness_witness :
  let dependencies :=
    [("useFoo", mkDep hook_ "useFoo" "useFoo");
     ("formatDate", mkDep util_ "formatDate" "useFoo");
     ("left-pad", mkDep package_ "left-pad" "useFoo")] in
  let out := buildFiles (fun _ => "https://repo") "/hooks" "/utils" "ts"
               dependencies in
  (forall k d, (k, d) ∈ dependencies ->
     if is_package d
     then k ∈ out.2 /\ k ∉ map file_name out.1
     else k ∈ map file_name out.1 /\ k ∉ out.2)
  /\ NoDup (map file_name out.1 ++ out.2)
  /\ length out.1 + length out.2 = length dependencies.
Proof.
  apply (partition_completeness (fun _ => "https://repo") "/hooks" "/utils"
           "ts" 5 (useFoo_registry "useFoo") ["useFoo"]).
  vm_compute. reflexivity.
Defined.

(** ** Who wrote a name last *)

Lemma replay_app registry calls1 calls2 files :
  replay registry (calls1 ++ calls2) files
  = replay registry calls2 (replay registry calls1 files).
Proof. unfold replay. apply fold_left_app. Qed.

Lemma replay_get_other registry l calls files :
  (forall C itemC,
      C ∈ calls -> registry !! C = Some itemC -> l ∉ written C itemC) ->
  map_get l (replay registry calls files) = map_get l files.
Proof.
  revert files. induction calls as [|C calls IH]; intros files H;
    [reflexivity|].
  change (replay registry (C :: calls) files)
    with (replay registry calls
            (match registry !! C with
             | Some item => record C item files
             | None => files
             end)).
  rewrite IH by (intros; eapply H; eauto using list_elem_of_further).
  destruct (registry !! C) as [item|] eqn:Hi; [|reflexivity].
  apply record_get_other. eapply H; eauto using list_elem_of_here.
Qed.

Example resolve_shared :
  resolveDependencies 3 shared_registry ["A"; "B"]
  = Returned [("A", mkDep hook_ "A" "A"); ("h", mkDep util_ "h" "B");
              ("B", mkDep hook_ "B" "B")].
Proof. vm_compute. reflexivity. Qed.

(** C6. In every result of the resolver each name is a key at most
    once; and the node kept under a name is the one of the last call
    that wrote it: if the calls of the traversal are [before], then the
    unit [B], then [after], the name [l] is a leaf (helper, local helper
    or package) of [B], and no call of [after] writes [l], then the node
    under [l] has the display name of [B] as parent, whatever unit of
    [before] recorded [l] earlier. *)
Theorem parent_overwrite (depth : nat) (registry : gmap string RegistryItem)
    (roots : list string) (files : FileMap) :
  resolveDependencies depth registry roots = Returned files ->
  NoDup (map_keys files)
  /\ exists calls,
       visitOrders depth registry roots = Returned calls
       /\ forall before B after itemB l,
            calls = (before ++ B :: after)%list ->
            registry !! B = Some itemB ->
            l ∈ leaves itemB ->
            (forall C itemC,
                C ∈ after -> registry !! C = Some itemC ->
                l ∉ written C itemC) ->
            exists d, map_get l files = Some d
                      /\ dep_parent d = item_name itemB.
Proof.
  intros E. split; [eapply resolveDependencies_NoDup, E|].
  pose proof (resolve_visit registry roots depth roots [] []
                (callable_refl_roots registry roots)) as Hv.
  unfold resolveDependencies in E. rewrite E in Hv.
  destruct Hv as (calls & Ev & -> & _ & _).
  exists calls. split; [exact Ev|].
  intros before B after itemB l -> HB Hl Hafter.
  rewrite replay_app.
  change (replay registry (B :: after) (replay registry before []))
    with (replay registry after
            (match registry !! B with
             | Some item => record B item (replay registry before [])
             | None => replay registry before []
             end)).
  rewrite HB, replay_get_other by assumption.
  destruct (record_get B itemB (replay registry before []) l)
    as (d & Hd & _ & Hp).
  { unfold written. apply list_elem_of_further, Hl. }
  exists d. auto.
Qed.

Lemma parent_overwrite_witness :
  let files := [("A", mkDep hook_ "A" "A"); ("h", mkDep util_ "h" "B");
                ("B", mkDep hook_ "B" "B")] in
  NoDup (map_keys files)
  /\ exists calls,
       visitOrders 3 shared_registry ["A"; "B"] = Returned calls
       /\ forall before B after itemB l,
            calls = (before ++ B :: after)%list ->
            shared_registry !! B = Some itemB ->
            l ∈ leaves itemB ->
            (forall C itemC,
                C ∈ after -> shared_registry !! C = Some itemC ->
                l ∉ written C itemC) ->
            exists d, map_get l files = Some d
                      /\ dep_parent d = item_name itemB.
Proof.
  apply (parent_overwrite 3 shared_registry ["A"; "B"]).
  vm_compute. reflexivity.
Defined.

(** ** Which names are recursed into *)

Lemma resolve_agree registry registry' roots :
  (forall h, callable registry roots h -> registry' !! h = registry !! h) ->
  forall depth hooks files,
    (forall h, h ∈ hooks -> callable registry roots h) ->
    forOf (resolveDependency depth registry') hooks files
    = forOf (resolveDependency depth registry) hooks files.
Proof.
  intros Hagree depth.
  induction depth as [|depth IHd];
    induction hooks as [|h hooks IHh]; intros files Hc; try reflexivity.
  assert (callable registry roots h) as Hh by apply Hc, list_elem_of_here.
  rewrite !forOf_cons, !resolveDependency_S, (Hagree h Hh).
  destruct (registry !! h) as [item|] eqn:Hi; [|reflexivity].
  rewrite IHd by eauto using callable_hooks.
  destruct (forOf (resolveDependency depth registry) (item_hooks item)
              (record h item files)); try reflexivity.
  apply IHh. intros h' Hh'. apply Hc, list_elem_of_further, Hh'.
Qed.

Example resolve_shadowed :
  resolveDependencies 3 shadowed_registry ["useA"]
  = Returned [("useA", mkDep hook_ "useA" "useA");
              ("useB", mkDep util_ "useB" "useA")].
Proof. vm_compute. reflexivity. Qed.

(** C8. The calls of a traversal that returns are all on callable
    names, that is on roots and on members of the [hooks] array of an
    item that was itself called; the result is the replay of exactly
    these calls. A name that is only recorded as helper, local helper
    or package is not among them even when it is a key of the registry:
    replacing or removing the registry entries of all names that are not
    callable leaves the result of the resolver unchanged. *)
Theorem leaves_never_recursed (depth : nat)
    (registry : gmap string RegistryItem) (roots : list string)
    (files : FileMap) :
  resolveDependencies depth registry roots = Returned files ->
  (exists calls,
      visitOrders depth registry roots = Returned calls
      /\ files = replay registry calls []
      /\ Forall (callable registry roots) calls)
  /\ forall registry' : gmap string RegistryItem,
       (forall h, callable registry roots h ->
                  registry' !! h = registry !! h) ->
       resolveDependencies depth registry' roots = Returned files.
Proof.
  intros E. split.
  - pose proof (resolve_visit registry roots depth roots [] []
                  (callable_refl_roots registry roots)) as Hv.
    unfold resolveDependencies in E. rewrite E in Hv.
    destruct Hv as (calls & Ev & -> & Hc & _).
    exists calls. auto.
  - intros registry' Hagree. rewrite <- E. unfold resolveDependencies.
    apply (resolve_agree registry registry' roots Hagree).
    apply callable_refl_roots.
Qed.

Lemma leaves_never_recursed_witness :
  let files := [("useA", mkDep hook_ "useA" "useA");
                ("useB", mkDep util_ "useB" "useA")] in
  (exists calls,
      visitOrders 3 shadowed_registry ["useA"] = Returned calls
      /\ files = replay shadowed_registry calls []
      /\ Forall (callable shadowed_registry ["useA"]) calls)
  /\ forall registry' : gmap string RegistryItem,
       (forall h, callable shadowed_registry ["useA"] h ->
                  registry' !! h = shadowed_registry !! h) ->
       resolveDependencies 3 registry' ["useA"] = Returned files.
Proof.
  apply (leaves_never_recursed 3 shadowed_registry ["useA"]).
  vm_compute. reflexivity.
Defined.

(** ** The parent is the display name *)

Example resolve_renamed :
  resolveDependencies 2 renamed_registry ["use-foo"]
  = Returned [("use-foo", mkDep hook_ "use-foo" "useFoo");
              ("helper", mkDep local_ "helper" "useFoo")].
Proof. vm_compute. reflexivity. Qed.

(** C10. Every node of a result of the resolver, the unit nodes
    included, was written by a call on some registry key [hook] and has
    as parent the [name] field of the entry found under that key, not
    the key. Hence the plan of a local-helper node takes its
    destination, its source and its index path from that display
    name. *)
Theorem parent_is_display_name (REPO_URLS : string -> string)
    (hooksRoot utilsRoot language : string) (depth : nat)
    (registry : gmap string RegistryItem) (roots : list string)
    (files : FileMap) :
  resolveDependencies depth registry roots = Returned files ->
  forall k d, (k, d) ∈ files ->
    exists hook item,
      callable registry roots hook
      /\ registry !! hook = Some item
      /\ recorded_by hook item (k, d)
      /\ dep_parent d = item_name item
      /\ (dep_type d = hook_ -> k = hook)
      /\ (dep_type d = local_ ->
          (planOf REPO_URLS hooksRoot utilsRoot language d []).1
          = Some (mkFile k
                    (hooksRoot ++ "/" ++ item_name item ++ "/helpers/" ++ k
                     ++ "." ++ language)
                    (REPO_URLS (toUpperCase language) ++ "/hooks/"
                     ++ item_name item ++ "/helpers/" ++ k ++ "."
                     ++ language)
                    local_
                    (hooksRoot ++ "/" ++ item_name item
                     ++ "/helpers/index." ++ language)
                    k)).
Proof.
  intros E k d Hin.
  pose proof (resolveDependencies_recorded _ _ _ _ E) as Hrec.
  rewrite Forall_forall in Hrec.
  destruct (Hrec _ Hin) as (hook & item & Hc & Hi & Hby).
  exists hook, item. repeat (split; [assumption|]).
  destruct Hby as (Hn & Hp & Hty). simpl in Hn, Hp, Hty.
  split; [assumption|]. split.
  - intros Ht. now rewrite Ht in Hty.
  - intros Ht. unfold planOf. rewrite Ht, Hn, Hp. reflexivity.
Qed.

Lemma parent_is_display_name_witness :
  exists hook item,
    callable renamed_registry ["use-foo"] hook
    /\ renamed_registry !! hook = Some item
    /\ recorded_by hook item ("helper", mkDep local_ "helper" "useFoo")
    /\ "useFoo" = item_name item
    /\ (local_ = hook_ -> "helper" = hook)
    /\ (local_ = local_ ->
        (planOf (fun _ => "https://repo") "/hooks" "/utils" "ts"
           (mkDep local_ "helper" "useFoo") []).1
        = Some (mkFile "helper"
                  ("/hooks" ++ "/" ++ item_name item ++ "/helpers/"
                   ++ "helper" ++ "." ++ "ts")
                  ("https://repo" ++ "/hooks/"
                   ++ item_name item ++ "/helpers/" ++ "helper" ++ "."
                   ++ "ts")
                  local_
                  ("/hooks" ++ "/" ++ item_name item
                   ++ "/helpers/index." ++ "ts")
                  "helper")).
Proof.
  apply (parent_is_display_name (fun _ => "https://repo") "/hooks" "/utils"
           "ts" 2 renamed_registry ["use-foo"]
           [("use-foo", mkDep hook_ "use-foo" "useFoo");
            ("helper", mkDep local_ "helper" "useFoo")]).
  - vm_compute. reflexivity.
  - apply list_elem_of_further, list_elem_of_here.
Defined.

(** With the key "use-foo" and the display name "useFoo", the local
    helper goes under the display name. *)
Example renamed_local_plan :
  buildFiles (fun _ => "https://repo") "/hooks" "/utils" "ts"
    [("use-foo", mkDep hook_ "use-foo" "useFoo");
     ("helper", mkDep local_ "helper" "useFoo")]
  = ([ mkFile "use-foo" "/hooks/use-foo/use-foo.ts"
         "https://repo/hooks/use-foo/use-foo.ts" hook_ "/hooks/index.ts"
         "use-foo/use-foo";
       mkFile "helper" "/hooks/useFoo/helpers/helper.ts"
         "https://repo/hooks/useFoo/helpers/helper.ts" local_
         "/hooks/useFoo/helpers/index.ts" "helper" ],
     []).
Proof. reflexivity. Qed.

(** ** Cyclic registries *)

Lemma cyclic_lookup_a :
  cyclic_registry !! "a" = Some (mkItem "a" ["b"] [] [] []).
Proof. reflexivity. Qed.

Lemma cyclic_lookup_b :
  cyclic_registry !! "b" = Some (mkItem "b" ["a"] [] [] []).
Proof. reflexivity. Qed.

Lemma cyclic_never_returns depth :
  forall files,
    resolveDependency depth cyclic_registry "a" files = StackExhausted
    /\ resolveDependency depth cyclic_registry "b" files = StackExhausted.
Proof.
  induction depth as [|depth IH]; intros files; [split; reflexivity|].
  rewrite !resolveDependency_S, cyclic_lookup_a, cyclic_lookup_b.
  cbn [item_hooks]. rewrite !forOf_cons.
  split.
  - now rewrite (proj2 (IH _)).
  - now rewrite (proj1 (IH _)).
Qed.

(** C2, as stated, fails: no bound on the stack lets the resolution of
    the two-unit cycle from root "a" end, be it with a graph or with an
    error of any kind. *)
Lemma cycle_not_detected :
  ~ exists depth,
      resolveDependencies depth cyclic_registry ["a"] <> StackExhausted.
Proof.
  intros (depth & H). apply H. unfold resolveDependencies.
  rewrite forOf_cons. now rewrite (proj1 (cyclic_never_returns depth [])).
Qed.

(** C2, amended. For the registry in which unit a declares units [b]
    and unit b declares units [a], the resolver has no guard against
    revisiting a unit: from root "a", and from any call on "a" or "b"
    with any map, the recursion goes on until the stack is exhausted,
    whatever its size. *)
Theorem cycle_exhausts_stack (depth : nat) (files : FileMap) :
  resolveDependencies depth cyclic_registry ["a"] = StackExhausted
  /\ resolveDependency depth cyclic_registry "a" files = StackExhausted
  /\ resolveDependency depth cyclic_registry "b" files = StackExhausted.
Proof.
  split; [|apply cyclic_never_returns].
  unfold resolveDependencies. rewrite forOf_cons.
  now rewrite (proj1 (cyclic_never_returns depth [])).
Qed.

(** ** Names that the registry does not have *)

Lemma firstMissing_Some registry roots name :
  name ∈ roots -> registry !! name = None -> name ∉ Object_prototype ->
  exists hook,
    hook ∈ roots /\ registry !! hook = None /\ (hook ∉ Object_prototype)
    /\ firstMissing registry roots = Some hook.
Proof.
  induction roots as [|r roots IH]; intros Hin Hnone Hproto.
  - now apply not_elem_of_nil in Hin.
  - simpl. destruct (present registry r) eqn:Hr; simpl.
    + apply elem_of_cons in Hin as [->|Hin].
      * unfold present in Hr. rewrite Hnone in Hr.
        now apply existsb_eqb_elem in Hr.
      * destruct (IH Hin Hnone Hproto) as (hook & Hh & Hn & Hp & E).
        exists hook. auto using list_elem_of_further.
    + unfold present in Hr.
      destruct (registry !! r) eqn:Hi; [discriminate|].
      exists r. repeat split; auto using list_elem_of_here.
      intros Hp. apply existsb_eqb_elem in Hp. congruence.
Qed.

Example resolve_dangling :
  resolveDependencies 5 dangling_registry ["a"] = TypeError "ghost".
Proof. vm_compute. reflexivity. Qed.

(** C3, as stated, fails: in the registry whose unit "a" lists the hook
    "ghost", the name "ghost" is reached from the root "a" and is
    absent, yet the handler passes the selection on and the resolver
    throws on the missing entry: no unknown-unit failure is reported. *)
Lemma unknown_reference_not_reported :
  ~ (forall (depth : nat) (registry : gmap string RegistryItem)
       (roots : list string) (name : string),
        callable registry roots name -> registry !! name = None ->
        exists message,
          resolveSelected depth false registry roots = Exit 1 message).
Proof.
  intros H.
  destruct (H 5 dangling_registry ["a"] "ghost") as (message & E).
  - apply (callable_hook _ _ "a" (mkItem "a" ["ghost"] [] [] []) "ghost").
    + apply callable_root, list_elem_of_here.
    + reflexivity.
    + apply list_elem_of_here.
  - reflexivity.
  - vm_compute in E. discriminate E.
Qed.

(** A traversal that returns has found every callable name in the
    registry: with a reference to a missing entry anywhere within reach,
    the resolver throws or runs out of stack, and returns no graph. *)
Lemma forOf_Returned_elem {S : Type} (body : string -> S -> outcome S) xs :
  forall s s', forOf body xs s = Returned s' ->
  forall x, x ∈ xs -> exists s1 s2, body x s1 = Returned s2.
Proof.
  induction xs as [|y xs IH]; intros s s' E x Hx.
  - now apply not_elem_of_nil in Hx.
  - rewrite forOf_cons in E.
    destruct (body y s) as [s1| |] eqn:Ey; try discriminate.
    apply elem_of_cons in Hx as [->|Hx]; eauto.
Qed.

Lemma returned_callable_called depth registry roots files files' :
  forOf (resolveDependency depth registry) roots files = Returned files' ->
  forall h, callable registry roots h ->
  exists d f1 f2, resolveDependency d registry h f1 = Returned f2.
Proof.
  intros E h Hc. induction Hc as [h Hh|h item h' Hc IH Hi Hh'].
  - destruct (forOf_Returned_elem _ _ _ _ E h Hh) as (f1 & f2 & E1). eauto.
  - destruct IH as (d & f1 & f2 & E1).
    destruct d as [|d]; [discriminate|].
    rewrite resolveDependency_S, Hi in E1.
    destruct (forOf_Returned_elem _ _ _ _ E1 h' Hh') as (g1 & g2 & E2). eauto.
Qed.

(** With a name within reach of the roots that has no entry, no stack
    depth lets the resolver return a graph. *)
Lemma absent_reference_never_resolved depth registry roots name files :
  callable registry roots name -> registry !! name = None ->
  resolveDependencies depth registry roots <> Returned files.
Proof.
  intros Hc Hnone E.
  destruct (returned_callable_called _ _ _ _ _ E name Hc) as (d & f1 & f2 & E1).
  destruct d as [|d]; [discriminate|].
  rewrite resolveDependency_S, Hnone in E1. discriminate.
Qed.

(** C3, amended. For every registry and every list of root names
    selected without the [all] flag, whenever some root name has no
    entry in the registry (and is not one of the property names that
    the registry object inherits, such as "toString"), the handler
    reports an unknown hook (the first such root of the list) and exits
    with code 1 instead of resolving. Names reached through [hooks]
    references are not part of this check. *)
Theorem unknown_root_reported (depth : nat)
    (registry : gmap string RegistryItem) (roots : list string)
    (name : string) :
  name ∈ roots -> registry !! name = None -> name ∉ Object_prototype ->
  exists hook,
    hook ∈ roots /\ registry !! hook = None /\ (hook ∉ Object_prototype)
    /\ resolveSelected depth false registry roots
       = Exit 1 ("Hook " ++ hook ++ " not found in the registry.").
Proof.
  intros Hin Hnone Hproto.
  destruct (firstMissing_Some registry roots name Hin Hnone Hproto)
    as (hook & Hh & Hn & Hp & E).
  exists hook. unfold resolveSelected. simpl. rewrite E. auto.
Qed.

Lemma unknown_root_reported_witness :
  exists hook,
    hook ∈ ["useFoo"; "useBar"]
    /\ useFoo_registry "useFoo" !! hook = None
    /\ (hook ∉ Object_prototype)
    /\ resolveSelected 5 false (useFoo_registry "useFoo") ["useFoo"; "useBar"]
       = Exit 1 ("Hook " ++ hook ++ " not found in the registry.").
Proof.
  apply (unknown_root_reported 5 (useFoo_registry "useFoo")
           ["useFoo"; "useBar"] "useBar").
  - apply list_elem_of_further, list_elem_of_here.
  - reflexivity.
  - intros H. apply existsb_eqb_elem in H. discriminate H.
Defined.

(** A root that is no entry of the registry but the name of an
    inherited property passes the check of the handler; the resolver
    then throws. *)
Example inherited_root_passes :
  resolveSelected 5 false (useFoo_registry "useFoo") ["toString"]
  = Resolved (TypeError "toString").
Proof. vm_compute. reflexivity. Qed.

(** ** Strings and paths *)

Lemma prefix_append (a b : string) : String.prefix a (a ++ b) = true.
Proof.
  induction a as [|c a IH]; simpl; [now destruct b|].
  destruct (Ascii.ascii_dec c c); [assumption|contradiction].
Qed.

Lemma prefix_refl (a : string) : String.prefix a a = true.
Proof.
  induction a as [|c a IH]; simpl; [reflexivity|].
  destruct (Ascii.ascii_dec c c); [assumption|contradiction].
Qed.

Lemma includes_unfold (s sub : string) :
  includes s sub
  = String.prefix sub s
    || match s with
       | EmptyString => false
       | String _ s' => includes s' sub
       end.
Proof. destruct s; reflexivity. Qed.

Lemma includes_append (text sub : string) : includes (text ++ sub) sub = true.
Proof.
  induction text as [|c text IH].
  - change ("" ++ sub) with sub. rewrite includes_unfold, prefix_refl.
    reflexivity.
  - change (String c text ++ sub) with (String c (text ++ sub)).
    rewrite includes_unfold, IH. apply orb_true_r.
Qed.

Lemma get_0_nonempty (path : string) :
  String.length path <> 0 -> exists c rest, path = String c rest.
Proof. destruct path as [|c rest]; [contradiction|eauto]. Qed.

Lemma dirname_loop_bounds path i matchedSlash end_ :
  dirname_loop path i matchedSlash = Some end_ -> 1 <= end_ <= i.
Proof.
  revert matchedSlash.
  induction i as [|i IH]; intros matchedSlash; simpl; [discriminate|].
  destruct (is_slash (String.get (S i) path)).
  - destruct matchedSlash; simpl.
    + intros H. apply IH in H. lia.
    + intros [= <-]. lia.
  - intros H. apply IH in H. lia.
Qed.

Lemma substring_truthy end_ path :
  1 <= end_ -> String.length path <> 0 ->
  truthy (String.substring 0 end_ path) = true.
Proof.
  intros He Hp. destruct (get_0_nonempty path Hp) as (c & rest & ->).
  destruct end_ as [|e]; [lia|]. reflexivity.
Qed.

(** [path.dirname] never returns the empty string. *)
Lemma dirname_truthy (path : string) : truthy (dirname path) = true.
Proof.
  unfold dirname.
  destruct (Nat.eqb_spec (String.length path) 0) as [|Hlen]; [reflexivity|].
  destruct (dirname_loop path (String.length path - 1) true) as [end_|] eqn:E.
  - apply dirname_loop_bounds in E.
    destruct (is_slash (String.get 0 path) && Nat.eqb end_ 1);
      [reflexivity|].
    apply substring_truthy; [lia|assumption].
  - now destruct (is_slash (String.get 0 path)).
Qed.

Example dirname_useFoo :
  dirname "/app/src/hooks/useFoo/useFoo.ts" = "/app/src/hooks/useFoo".
Proof. reflexivity. Qed.

Example dirname_samples :
  dirname "index.ts" = "." /\ dirname "/index.ts" = "/"
  /\ dirname "a/b/" = "a" /\ dirname "" = "." /\ dirname "//a" = "//".
Proof. repeat split; reflexivity. Qed.

(** ** The installer *)

Section InstallerFacts.

Variable chalk_green : string -> string.
Variable network : string -> option string.

Lemma installFiles_cons file rest answers w :
  installFiles chalk_green network (file :: rest) answers w
  = let name := file_name file in
    let w := emit (SpinnerText ("Installing " ++ name ++ "...")) w in
    let w := emit SpinnerStop w in
    let w :=
      emit (Prompt ("File " ++ name
                    ++ " already exists. Would you like to overwrite?"))
        w in
    if negb (confirmed (ask answers).1) then
      installFiles chalk_green network rest (ask answers).2
        (emit (ConsoleLog ("Skipped " ++ name
                           ++ ". To overwrite, run with the "
                           ++ chalk_green "--overwrite" ++ " flag."))
           w)
    else
      match installFile network file (dirname (directoryPath file))
              (emit (SpinnerStart ("Installing " ++ name ++ "...")) w)
      with
      | Done w' => installFiles chalk_green network rest (ask answers).2 w'
      | Threw error w' => Threw error w'
      end.
Proof.
  cbn [installFiles]. rewrite dirname_truthy.
  destruct (ask answers) as [overwrite answers']. reflexivity.
Qed.

End InstallerFacts.

(** C1. The prompt does not wait for the directory to exist: on a disk
    that has no file and no directory, so that the parent directory
    /app/src/hooks/useFoo of the plan's destination is missing, the
    installer stops the spinner and shows the overwrite prompt for
    "useFoo" (here the user declines and the plan is skipped). The
    condition of the prompt is the truth value of the string returned
    by [path.dirname], which is never empty. *)
Theorem prompt_without_directory (chalk_green : string -> string)
    (network : string -> option string) :
  existsSync (dirname (directoryPath useFoo_plan)) empty_world = false
  /\ installFiles chalk_green network [useFoo_plan] [Some false] empty_world
     = Done (mkWorld ∅ ∅
               [ SpinnerText "Installing useFoo...";
                 SpinnerStop;
                 Prompt "File useFoo already exists. Would you like to overwrite?";
                 ConsoleLog ("Skipped useFoo. To overwrite, run with the "
                             ++ chalk_green "--overwrite" ++ " flag.") ])
  /\ forall file : FilePlan, truthy (dirname (directoryPath file)) = true.
Proof.
  split; [reflexivity|]. split; [reflexivity|].
  intros file. apply dirname_truthy.
Qed.

Lemma openError_file p w text :
  contents w !! p = Some text -> openError p w = None.
Proof. intros H. unfold openError, isFile. now rewrite H. Qed.

(** C7. When the text of the index file already contains the export
    line of the plan, [export * from './{filePath}';] followed by a
    newline, the index-update step changes nothing: the world after the
    step is the world before it, so the index keeps its content and no
    line is appended. *)
Theorem index_update_idempotent (indexPath filePath : string) (w : World)
    (text : string) :
  contents w !! indexPath = Some text ->
  includes text ("export * from './" ++ filePath ++ "';" ++ LF) = true ->
  updateIndex indexPath filePath w = Done w.
Proof.
  intros Htext Hinc. unfold updateIndex, existsSync.
  rewrite Htext, orb_true_r. cbn [negb andThen]. rewrite Htext.
  unfold exportStatement. rewrite Hinc. reflexivity.
Qed.

Lemma index_update_idempotent_witness :
  updateIndex "/app/src/hooks/index.ts" "useBar/useBar" installed_world
  = Done installed_world.
Proof.
  apply (index_update_idempotent "/app/src/hooks/index.ts" "useBar/useBar"
           installed_world ("export * from './useBar/useBar';" ++ LF)).
  - reflexivity.
  - reflexivity.
Defined.

(** After one index update that returned, the export line is in the
    index, and a second update is a no-op. *)
Lemma index_update_twice (indexPath filePath : string) (w w1 : World) :
  updateIndex indexPath filePath w = Done w1 ->
  updateIndex indexPath filePath w1 = Done w1.
Proof.
  assert (forall w0 text,
             contents w0 !! indexPath = Some text ->
             includes text (exportStatement filePath) = true ->
             updateIndex indexPath filePath w0 = Done w0) as Hskip.
  { intros w0 text Htext Hinc. unfold updateIndex, existsSync.
    rewrite Htext, orb_true_r. cbn [negb andThen]. now rewrite Htext, Hinc. }
  unfold updateIndex at 1.
  destruct (if negb (existsSync indexPath w)
            then writeFileSync indexPath "" w else Done w)
    as [w'|error w']; cbn [andThen]; [|discriminate].
  destruct (contents w' !! indexPath) as [text|] eqn:Htext; [|discriminate].
  destruct (includes text (exportStatement filePath)) eqn:Hinc; cbn [negb].
  - intros [= <-]. eapply Hskip; eassumption.
  - unfold appendFileSync. rewrite (openError_file _ _ _ Htext).
    intros [= <-]. apply (Hskip _ (text ++ exportStatement filePath)).
    + unfold emit. cbn [contents]. rewrite Htext. apply lookup_insert_eq.
    + apply includes_append.
Qed.

(** ** The trace only grows *)

Lemma extends_refl w : extends w w.
Proof. exists []. now rewrite app_nil_r. Qed.

Lemma extends_trans w1 w2 w3 : extends w1 w2 -> extends w2 w3 -> extends w1 w3.
Proof.
  intros (l1 & E1) (l2 & E2). exists (l1 ++ l2)%list.
  now rewrite E2, E1, app_assoc.
Qed.

Lemma extends_emit e w : extends w (emit e w).
Proof. now exists [e]. Qed.

Lemma extends_mkdir directory w : extends w (world_of (mkdirSync directory w)).
Proof.
  unfold mkdirSync. destruct (existsb _ _); simpl;
    [apply extends_refl|now exists [Mkdir directory]].
Qed.

Lemma extends_write p data w : extends w (world_of (writeFileSync p data w)).
Proof.
  unfold writeFileSync. destruct (openError p w); simpl;
    [apply extends_refl|now exists [WriteFile p data]].
Qed.

Lemma extends_append p data w : extends w (world_of (appendFileSync p data w)).
Proof.
  unfold appendFileSync. destruct (openError p w); simpl;
    [apply extends_refl|now exists [AppendFile p data]].
Qed.

Lemma extends_andThen w r k :
  extends w (world_of r) ->
  (forall w1, extends w1 (world_of (k w1))) ->
  extends w (world_of (andThen r k)).
Proof.
  intros Hr Hk. destruct r as [w1|error w1]; simpl in *; [|assumption].
  eapply extends_trans; [exact Hr|apply Hk].
Qed.

Lemma extends_updateIndex indexPath filePath w :
  extends w (world_of (updateIndex indexPath filePath w)).
Proof.
  unfold updateIndex. apply extends_andThen.
  - destruct (negb (existsSync indexPath w));
      [apply extends_write|apply extends_refl].
  - intros w1. destruct (contents w1 !! indexPath) as [text|];
      [|apply extends_refl].
    destruct (negb (includes text (exportStatement filePath)));
      [apply extends_append|apply extends_refl].
Qed.

Lemma extends_installFile network file directory w :
  extends w (world_of (installFile network file directory w)).
Proof.
  unfold installFile. apply extends_andThen.
  - destruct (negb (existsSync directory w));
      [apply extends_mkdir|apply extends_refl].
  - intros w1. eapply extends_trans; [apply extends_emit|].
    destruct (network (registryPath file)) as [data|];
      [|apply extends_refl].
    apply extends_andThen; [apply extends_write|].
    intros w2. apply extends_updateIndex.
Qed.

Lemma extends_installFiles chalk_green network files :
  forall answers w,
    extends w (world_of (installFiles chalk_green network files answers w)).
Proof.
  induction files as [|file rest IH]; intros answers w;
    [apply extends_refl|].
  rewrite installFiles_cons. cbv zeta.
  do 3 (eapply extends_trans; [apply extends_emit|]).
  destruct (negb (confirmed (ask answers).1)).
  - eapply extends_trans; [apply extends_emit|apply IH].
  - eapply extends_trans; [apply extends_emit|].
    pose proof (extends_installFile network file
                  (dirname (directoryPath file))
                  (emit (SpinnerStart ("Installing " ++ file_name file
                                       ++ "..."))
                     (emit (Prompt ("File " ++ file_name file
                                    ++ " already exists. Would you like to overwrite?"))
                        (emit SpinnerStop
                           (emit (SpinnerText ("Installing "
                                               ++ file_name file ++ "..."))
                              w))))) as Hf.
    destruct (installFile network file (dirname (directoryPath file)) _)
      as [w1|error w1]; simpl in Hf |- *; [|exact Hf].
    eapply extends_trans; [exact Hf|apply IH].
Qed.

(** C9. When the answer to the overwrite prompt of a plan is not a
    confirmation, the plan is skipped. Run alone, the plan ends the
    loop normally in a world with the directories and files of before,
    whose only new events are the spinner text, the stop of the
    spinner, the prompt and the skip notice, which names the
    [--overwrite] flag: no directory is made, nothing is fetched, no
    file is written and no index is changed. Followed by other plans,
    the run is the run of those plans from that world: its trace is the
    trace of that world followed by what the next plan begins with, its
    spinner text and its prompt. *)
Theorem declined_plan_skipped (chalk_green : string -> string)
    (network : string -> option string) (file : FilePlan)
    (rest : list FilePlan) (answer : option bool)
    (answers : list (option bool)) (w : World) :
  confirmed answer = false ->
  let skipped :=
    mkWorld (dirs w) (contents w)
      (trace w
       ++ [ SpinnerText ("Installing " ++ file_name file ++ "...");
            SpinnerStop;
            Prompt ("File " ++ file_name file
                    ++ " already exists. Would you like to overwrite?");
            ConsoleLog ("Skipped " ++ file_name file
                        ++ ". To overwrite, run with the "
                        ++ chalk_green "--overwrite" ++ " flag.") ]) in
  installFiles chalk_green network [file] (answer :: answers) w = Done skipped
  /\ installFiles chalk_green network (file :: rest) (answer :: answers) w
     = installFiles chalk_green network rest answers skipped
  /\ exists later,
       trace (world_of (installFiles chalk_green network (file :: rest)
                          (answer :: answers) w))
       = (trace skipped ++ later)%list
       /\ match rest with
          | [] => later = []
          | next :: _ =>
              exists more,
                later
                = ([ SpinnerText ("Installing " ++ file_name next ++ "...");
                     SpinnerStop;
                     Prompt ("File " ++ file_name next
                             ++ " already exists. Would you like to overwrite?") ]
                   ++ more)%list
          end.
Proof.
  intros Hno skipped.
  assert (forall others,
             installFiles chalk_green network (file :: others)
               (answer :: answers) w
             = installFiles chalk_green network others answers skipped)
    as Hstep.
  { intros others. rewrite installFiles_cons. cbn [ask fst snd].
    cbv zeta. rewrite Hno. cbn [negb]. unfold emit.
    cbn [dirs contents trace]. subst skipped.
    now rewrite <- !app_assoc. }
  split; [exact (Hstep [])|]. split; [exact (Hstep rest)|].
  rewrite Hstep. destruct rest as [|next rest'].
  - exists []. split; [now rewrite app_nil_r|reflexivity].
  - rewrite installFiles_cons. cbv zeta.
    set (w3 := emit (Prompt _) (emit SpinnerStop (emit (SpinnerText _) skipped))).
    assert (trace w3
            = (trace skipped
               ++ [ SpinnerText ("Installing " ++ file_name next ++ "...");
                    SpinnerStop;
                    Prompt ("File " ++ file_name next
                            ++ " already exists. Would you like to overwrite?") ])%list)
      as Hw3.
    { subst w3. unfold emit. cbn [trace]. now rewrite <- !app_assoc. }
    assert (forall r, extends w3 (world_of r) ->
              exists later,
                trace (world_of r) = (trace skipped ++ later)%list
                /\ exists more,
                     later
                     = ([ SpinnerText ("Installing " ++ file_name next
                                       ++ "...");
                          SpinnerStop;
                          Prompt ("File " ++ file_name next
                                  ++ " already exists. Would you like to overwrite?") ]
                        ++ more)%list) as Hout.
    { intros r (more & E). eexists. split; [|exists more; reflexivity].
      now rewrite E, Hw3, <- app_assoc. }
    apply Hout.
    destruct (negb (confirmed (ask answers).1)).
    + eapply extends_trans; [apply extends_emit|apply extends_installFiles].
    + pose proof (extends_installFile network next
                    (dirname (directoryPath next))
                    (emit (SpinnerStart ("Installing " ++ file_name next
                                         ++ "...")) w3)) as Hf.
      eapply extends_trans; [apply extends_emit|].
      destruct (installFile network next (dirname (directoryPath next)) _)
        as [w1|error w1]; simpl in Hf |- *; [|exact Hf].
      eapply extends_trans; [exact Hf|apply extends_installFiles].
Qed.

Lemma declined_plan_skipped_witness :
  let skipped :=
    mkWorld (dirs installed_world) (contents installed_world)
      (trace installed_world
       ++ [ SpinnerText ("Installing " ++ file_name useFoo_plan ++ "...");
            SpinnerStop;
            Prompt ("File " ++ file_name useFoo_plan
                    ++ " already exists. Would you like to overwrite?");
            ConsoleLog ("Skipped " ++ file_name useFoo_plan
                        ++ ". To overwrite, run with the "
                        ++ (fun s => s) "--overwrite" ++ " flag.") ]) in
  installFiles (fun s => s) (fun _ => Some "data") [useFoo_plan]
    [Some false; Some true] installed_world = Done skipped
  /\ installFiles (fun s => s) (fun _ => Some "data")
       [useFoo_plan; useFoo_plan] [Some false; Some true] installed_world
     = installFiles (fun s => s) (fun _ => Some "data") [useFoo_plan]
         [Some true] skipped
  /\ exists later,
       trace (world_of (installFiles (fun s => s) (fun _ => Some "data")
                          [useFoo_plan; useFoo_plan] [Some false; Some true]
                          installed_world))
       = (trace skipped ++ later)%list
       /\ exists more,
            later
            = ([ SpinnerText ("Installing " ++ file_name useFoo_plan ++ "...");
                 SpinnerStop;
                 Prompt ("File " ++ file_name useFoo_plan
                         ++ " already exists. Would you like to overwrite?") ]
               ++ more)%list.
Proof.
  apply (declined_plan_skipped (fun s => s) (fun _ => Some "data")
           useFoo_plan [useFoo_plan] (Some false) [Some true]
           installed_world).
  reflexivity.
Defined.

(** The run of the witness as a whole: the first plan is refused and
    leaves its skip notice, the second is confirmed and installed. *)
Example decline_then_accept :
  exists w',
    installFiles (fun s => s) (fun _ => Some "data")
      [useFoo_plan; useFoo_plan] [Some false; Some true] installed_world
    = Done w'
    /\ contents w' !! "/app/src/hooks/useFoo/useFoo.ts" = Some "data"
    /\ In (ConsoleLog "Skipped useFoo. To overwrite, run with the --overwrite flag.")
         (trace w').
Proof.
  eexists. split; [vm_compute; reflexivity|]. split; [reflexivity|].
  vm_compute. auto.
Qed.

(** ** The bound on the stack *)

(** A deeper stack does not change what a traversal returns or
    throws: the bound only matters to traversals that exhaust it. *)
Lemma resolve_depth_mono registry depth :
  forall hooks files result,
    forOf (resolveDependency depth registry) hooks files = result ->
    result <> StackExhausted ->
    forOf (resolveDependency (S depth) registry) hooks files = result.
Proof.
  induction depth as [|depth IHd];
    induction hooks as [|h hooks IHh]; intros files result E Hne;
    try exact E.
  - rewrite forOf_cons in E. simpl in E. congruence.
  - rewrite forOf_cons, resolveDependency_S in E.
    rewrite forOf_cons, resolveDependency_S.
    destruct (registry !! h) as [item|]; [|exact E].
    destruct (forOf (resolveDependency depth registry) (item_hooks item)
                (record h item files)) as [files1|h1|] eqn:E1.
    + rewrite (IHd _ _ _ E1) by discriminate. now apply IHh.
    + rewrite (IHd _ _ _ E1) by discriminate. exact E.
    + congruence.
Qed.

Lemma resolveDependencies_depth_mono registry depth roots files :
  resolveDependencies depth registry roots = Returned files ->
  resolveDependencies (S depth) registry roots = Returned files.
Proof.
  intros E. apply resolve_depth_mono; [exact E|discriminate].
Qed.

(** ** A whole run on an empty disk *)

(** With the spinner around the loop: the run of the single plan for
    "useFoo" on an empty disk shows the prompt, and after the refusal
    leaves the disk empty. *)
Example install_on_empty_disk (chalk_green : string -> string)
    (network : string -> option string) :
  exists w,
    install chalk_green network [useFoo_plan] [Some false] empty_world = Done w
    /\ prompted "useFoo" w = true
    /\ dirs w = ∅ /\ contents w = ∅.
Proof. eexists. repeat split. Qed.

(** * Further properties of the resolver *)

Lemma map_get_keys k (m : FileMap) : is_Some (map_get k m) <-> k ∈ map_keys m.
Proof.
  unfold map_keys. induction m as [|[k0 v0] m IH]; simpl.
  - split; [intros [? ?]; discriminate|intros H; now apply not_elem_of_nil in H].
  - rewrite elem_of_cons. destruct (String.eqb_spec k k0) as [->|Hk].
    + split; [now left|eauto].
    + rewrite IH. tauto.
Qed.

(** When a name occurs in several arrays of one item, or is the name
    of the hook itself, the last group written decides its node:
    packages over local helpers over helpers over the hook. *)
Theorem record_priority (hook : string) (item : RegistryItem)
    (files : FileMap) (l : string) :
  map_get l (record hook item files)
  = if decide (l ∈ item_packages item)
    then Some (mkDep package_ l (item_name item))
    else if decide (l ∈ item_local item)
    then Some (mkDep local_ l (item_name item))
    else if decide (l ∈ item_utils item)
    then Some (mkDep util_ l (item_name item))
    else if decide (l = hook)
    then Some (mkDep hook_ l (item_name item))
    else map_get l files.
Proof.
  unfold record.
  destruct (decide (l ∈ item_packages item)) as [Hp|Hp];
    [now apply setEach_get|].
  rewrite setEach_get_other by assumption.
  destruct (decide (l ∈ item_local item)) as [Hlo|Hlo];
    [now apply setEach_get|].
  rewrite setEach_get_other by assumption.
  destruct (decide (l ∈ item_utils item)) as [Hu|Hu];
    [now apply setEach_get|].
  rewrite setEach_get_other by assumption.
  destruct (decide (l = hook)) as [->|Hne].
  - apply map_get_set_eq.
  - apply map_get_set_ne. congruence.
Qed.

Lemma record_keys hook item files k :
  k ∈ map_keys (record hook item files)
  <-> k ∈ written hook item \/ k ∈ map_keys files.
Proof.
  rewrite <- !map_get_keys.
  destruct (decide (k ∈ written hook item)) as [Hw|Hw].
  - destruct (record_get hook item files k Hw) as (d & -> & _). split; eauto.
  - rewrite record_get_other by assumption. tauto.
Qed.

Lemma replay_keys registry calls : forall files k,
  Forall (fun h => is_Some (registry !! h)) calls ->
  k ∈ map_keys (replay registry calls files)
  <-> k ∈ map_keys files
      \/ exists c item, c ∈ calls /\ registry !! c = Some item
                        /\ k ∈ written c item.
Proof.
  induction calls as [|c calls IH]; intros files k Hp.
  - simpl. split; [auto|]. intros [H|(c & item & Hc & _)]; [assumption|].
    now apply not_elem_of_nil in Hc.
  - apply Forall_cons in Hp as [[item Hi] Hp].
    change (replay registry (c :: calls) files)
      with (replay registry calls
              (match registry !! c with
               | Some item => record c item files
               | None => files
               end)).
    rewrite Hi, IH, record_keys by assumption. split.
    + intros [[Hw|Hk]|(c' & item' & Hc' & Hi' & Hw)].
      * right. exists c, item. auto using list_elem_of_here.
      * now left.
      * right. exists c', item'. auto using list_elem_of_further.
    + intros [Hk|(c' & item' & Hc' & Hi' & Hw)]; [auto|].
      apply elem_of_cons in Hc' as [->|Hc'].
      * left. left. congruence.
      * right. exists c', item'. auto.
Qed.

(** The calls of a traversal that returns: on callable names that the
    registry has, on every hook the traversal was started on, and on
    every member of the [hooks] array of a called item. *)
Lemma resolve_calls registry roots depth :
  forall hooks files files',
    (forall h, h ∈ hooks -> callable registry roots h) ->
    forOf (resolveDependency depth registry) hooks files = Returned files' ->
    exists calls,
      files' = replay registry calls files
      /\ Forall (callable registry roots) calls
      /\ Forall (fun h => is_Some (registry !! h)) calls
      /\ (forall h, h ∈ hooks -> h ∈ calls)
      /\ (forall c item h', c ∈ calls -> registry !! c = Some item ->
                            h' ∈ item_hooks item -> h' ∈ calls).
Proof.
  induction depth as [|depth IHd];
    induction hooks as [|h hooks IHh]; intros files files' Hc E;
    try discriminate;
    try (injection E as <-; exists [];
         repeat split; try constructor; intros;
         exfalso; eapply not_elem_of_nil; eassumption).
  assert (callable registry roots h) as Hh by apply Hc, list_elem_of_here.
  rewrite forOf_cons, resolveDependency_S in E.
  destruct (registry !! h) as [item|] eqn:Hi; [|discriminate].
  destruct (forOf (resolveDependency depth registry) (item_hooks item)
              (record h item files)) as [files1| |] eqn:E1; try discriminate.
  destruct (IHd _ _ _ (callable_hooks registry roots h item Hh Hi) E1)
    as (calls1 & -> & Hc1 & Hp1 & Hr1 & Hcl1).
  destruct (IHh _ _ (fun x Hx => Hc x (list_elem_of_further _ _ _ Hx)) E)
    as (calls2 & -> & Hc2 & Hp2 & Hr2 & Hcl2).
  exists (h :: calls1 ++ calls2)%list. repeat split.
  - unfold replay. simpl. rewrite fold_left_app, Hi. reflexivity.
  - constructor; [assumption|now apply Forall_app].
  - constructor; [now rewrite Hi|now apply Forall_app].
  - intros x Hx. apply elem_of_cons in Hx as [->|Hx];
      [apply list_elem_of_here|].
    apply list_elem_of_further, elem_of_app. auto.
  - intros c item' h' Hin Hi' Hh'.
    apply list_elem_of_further, elem_of_app.
    apply elem_of_cons in Hin as [->|Hin].
    + left. apply Hr1. congruence.
    + apply elem_of_app in Hin as [Hin|Hin]; eauto.
Qed.

(** The keys of a result are exactly the names written by the callable
    units: every name that can be reached from the roots through
    [hooks] arrays, and every helper, local helper and package of such
    a unit, is a key; and nothing else is. *)
Theorem resolve_closure (depth : nat) (registry : gmap string RegistryItem)
    (roots : list string) (files : FileMap) :
  resolveDependencies depth registry roots = Returned files ->
  forall k,
    k ∈ map_keys files
    <-> exists hook item,
          callable registry roots hook
          /\ registry !! hook = Some item
          /\ k ∈ written hook item.
Proof.
  intros E k.
  destruct (resolve_calls registry roots depth roots [] files
              (callable_refl_roots registry roots) E)
    as (calls & -> & Hc & Hp & Hr & Hcl).
  rewrite replay_keys by assumption. rewrite Forall_forall in Hc, Hp.
  assert (forall h, callable registry roots h -> h ∈ calls) as Hall.
  { intros h Hh. induction Hh as [h Hh|h item h' _ IH Hi Hh']; eauto. }
  split.
  - intros [Hk|(c & item & Hin & Hi & Hw)].
    + now apply not_elem_of_nil in Hk.
    + exists c, item. auto.
  - intros (hook & item & Hh & Hi & Hw). right. exists hook, item. auto.
Qed.

Lemma resolve_closure_witness :
  "own" ∈ map_keys [("useA", mkDep hook_ "useA" "useA");
                    ("h", mkDep util_ "h" "useB");
                    ("useB", mkDep hook_ "useB" "useB");
                    ("own", mkDep local_ "own" "useB");
                    ("pkg", mkDep package_ "pkg" "useB")]
  <-> exists hook item,
        callable nested_registry ["useA"] hook
        /\ nested_registry !! hook = Some item
        /\ "own" ∈ written hook item.
Proof.
  apply (resolve_closure 2 nested_registry ["useA"]).
  vm_compute. reflexivity.
Defined.

(** ** Registries without cycles *)

Lemma ranked_forOf registry (rank : string -> nat) :
  (forall h item h',
      registry !! h = Some item -> h' ∈ item_hooks item ->
      is_Some (registry !! h') /\ rank h' < rank h) ->
  forall depth hooks files,
    (forall h, h ∈ hooks -> is_Some (registry !! h) /\ rank h < depth) ->
    exists files',
      forOf (resolveDependency depth registry) hooks files = Returned files'.
Proof.
  intros Hrank depth.
  induction depth as [|depth IHd];
    induction hooks as [|h hooks IHh]; intros files Hh;
    try (eexists; reflexivity).
  - destruct (Hh h (list_elem_of_here _ _)) as [_ Hlt]. lia.
  - destruct (Hh h (list_elem_of_here _ _)) as [[item Hi] Hlt].
    rewrite forOf_cons, resolveDependency_S, Hi.
    destruct (IHd (item_hooks item) (record h item files)) as (files1 & E1).
    { intros h' Hh'. destruct (Hrank h item h' Hi Hh') as [Hs Hr].
      split; [assumption|lia]. }
    rewrite E1. apply IHh. intros x Hx. apply Hh, list_elem_of_further, Hx.
Qed.

(** When the [hooks] references of the registry descend along a rank,
    so that there is no cycle, and every referenced unit and every root
    has an entry, the resolver returns a graph as soon as the stack is
    deeper than the rank of every root. *)
Theorem ranked_registry_resolves (registry : gmap string RegistryItem)
    (rank : string -> nat) (roots : list string) (depth : nat) :
  (forall h item h',
      registry !! h = Some item -> h' ∈ item_hooks item ->
      is_Some (registry !! h') /\ rank h' < rank h) ->
  (forall h, h ∈ roots -> is_Some (registry !! h) /\ rank h < depth) ->
  exists files, resolveDependencies depth registry roots = Returned files.
Proof.
  intros Hrank Hroots. unfold resolveDependencies.
  now apply (ranked_forOf registry rank Hrank).
Qed.

Lemma nested_lookup h item :
  nested_registry !! h = Some item ->
  (h = "useA" /\ item = mkItem "useA" ["useB"] ["h"] [] [])
  \/ (h = "useB" /\ item = mkItem "useB" [] ["h"] ["own"] ["pkg"]).
Proof.
  unfold nested_registry. intros H.
  apply lookup_insert_Some in H as [[<- <-]|[_ H]]; [now left|].
  apply lookup_singleton_Some in H as [<- <-]. now right.
Qed.

Lemma ranked_registry_resolves_witness :
  exists files, resolveDependencies 2 nested_registry ["useA"] = Returned files.
Proof.
  apply (ranked_registry_resolves nested_registry nested_rank ["useA"] 2).
  - intros h item h' Hi Hh'.
    destruct (nested_lookup h item Hi) as [[-> ->]|[-> ->]]; simpl in Hh'.
    + apply list_elem_of_singleton in Hh' as ->.
      split; [now eexists|]. vm_compute. lia.
    + now apply not_elem_of_nil in Hh'.
  - intros h Hh. apply list_elem_of_singleton in Hh as ->.
    split; [now eexists|]. vm_compute. lia.
Defined.

(** ** References without an entry *)

Lemma absent_reference_never_resolved_witness :
  resolveDependencies 7 dangling_registry ["a"]
  <> Returned [("a", mkDep hook_ "a" "a")].
Proof.
  apply (absent_reference_never_resolved 7 dangling_registry ["a"] "ghost").
  - apply (callable_hook _ _ "a" (mkItem "a" ["ghost"] [] [] []) "ghost").
    + apply callable_root, list_elem_of_here.
    + reflexivity.
    + apply list_elem_of_here.
  - reflexivity.
Defined.

(** * The check of the selection *)

Lemma firstMissing_split registry roots hook :
  firstMissing registry roots = Some hook
  <-> exists before after,
        roots = (before ++ hook :: after)%list
        /\ (forall h, h ∈ before -> present registry h = true)
        /\ present registry hook = false.
Proof.
  induction roots as [|r roots IH]; simpl.
  - split; [discriminate|]. intros (before & after & E & _).
    now destruct before.
  - destruct (present registry r) eqn:Hr; simpl.
    + rewrite IH. split.
      * intros (before & after & -> & Hb & Hh).
        exists (r :: before), after. repeat split; [|assumption].
        intros h Hin. apply elem_of_cons in Hin as [->|Hin]; auto.
      * intros (before & after & E & Hb & Hh).
        destruct before as [|b before]; simpl in E; injection E as <- E.
        -- congruence.
        -- exists before, after. repeat split; [assumption| |assumption].
           intros h Hin. apply Hb, list_elem_of_further, Hin.
    + split.
      * intros [= <-]. exists [], roots. repeat split; [|assumption].
        intros h Hin. now apply not_elem_of_nil in Hin.
      * intros (before & after & E & Hb & Hh).
        destruct before as [|b before]; simpl in E; injection E as <- E.
        -- reflexivity.
        -- rewrite (Hb r (list_elem_of_here _ _)) in Hr. discriminate.
Qed.

(** Without the [all] flag the handler exits with code 1 exactly when
    some selected name fails the test [registry[hook]]; the message
    names the first such name of the selection, in selection order. *)
Theorem unknown_hook_exit (depth : nat) (registry : gmap string RegistryItem)
    (roots : list string) (message : string) :
  resolveSelected depth false registry roots = Exit 1 message
  <-> exists before hook after,
        roots = (before ++ hook :: after)%list
        /\ (forall h, h ∈ before -> present registry h = true)
        /\ present registry hook = false
        /\ message = "Hook " ++ hook ++ " not found in the registry.".
Proof.
  unfold resolveSelected. cbn [negb].
  destruct (firstMissing registry roots) as [hook|] eqn:E.
  - apply firstMissing_split in E as (before & after & -> & Hb & Hh). split.
    + intros [= <-]. exists before, hook, after. auto.
    + intros (before' & hook' & after' & E' & Hb' & Hh' & ->).
      assert (firstMissing registry (before ++ hook :: after) = Some hook)
        as E1 by (apply firstMissing_split; eauto).
      assert (firstMissing registry (before ++ hook :: after) = Some hook')
        as E2 by (rewrite E'; apply firstMissing_split; eauto).
      congruence.
  - split.
    + destruct (Nat.eqb (length roots) 0); discriminate.
    + intros (before & hook & after & -> & Hb & Hh & _).
      assert (firstMissing registry (before ++ hook :: after) = Some hook)
        as E1 by (apply firstMissing_split; eauto).
      congruence.
Qed.

(** The handler exits with code 0 at this point exactly when nothing
    is selected, with or without the [all] flag. *)
Theorem no_selection_exit (depth : nat) (all : bool)
    (registry : gmap string RegistryItem) (roots : list string)
    (message : string) :
  resolveSelected depth all registry roots = Exit 0 message
  <-> roots = [] /\ message = "No hooks selected.".
Proof.
  unfold resolveSelected. destruct roots as [|r roots].
  - destruct all; simpl; split; try (intros [= <-]; auto);
      intros [_ ->]; reflexivity.
  - destruct (if negb all then firstMissing registry (r :: roots) else None);
      simpl; split; try discriminate; intros [? _]; discriminate.
Qed.



(** * Further properties of the file plans *)

Lemma append_assoc (a b c : string) : (a ++ b) ++ c = a ++ (b ++ c).
Proof.
  induction a as [|x a IH]; [reflexivity|].
  change (String x ((a ++ b) ++ c) = String x (a ++ (b ++ c))).
  f_equal. exact IH.
Qed.

Lemma append_empty_r (a : string) : a ++ "" = a.
Proof.
  induction a as [|x a IH]; [reflexivity|].
  change (String x (a ++ "") = String x a). f_equal. exact IH.
Qed.

Section MorePlanFacts.

Variable REPO_URLS : string -> string.
Variables pathToLoadHooks pathToLoadUtils language : string.

Local Notation "'plan_'" :=
  (planOf REPO_URLS pathToLoadHooks pathToLoadUtils language).
Local Notation "'buildFiles_'" :=
  (buildFiles REPO_URLS pathToLoadHooks pathToLoadUtils language).

Lemma filterBoolean_kinds deps :
  map (fun f => (file_name f, file_type f))
    (filterBoolean (map (fun d => (plan_ d []).1) deps))
  = map (fun d => (dep_name d, dep_type d))
      (List.filter (fun d => negb (is_package d)) deps).
Proof.
  induction deps as [|d deps IH]; simpl; [reflexivity|].
  unfold planOf at 1, is_package at 1.
  destruct (dep_type d) eqn:Ht; simpl; rewrite ?Ht, IH; reflexivity.
Qed.

Lemma filterBoolean_elem deps f :
  f ∈ filterBoolean (map (fun d => (plan_ d []).1) deps)
  <-> exists d, d ∈ deps /\ (plan_ d []).1 = Some f.
Proof.
  induction deps as [|d deps IH]; simpl.
  - split; [intros H; now apply not_elem_of_nil in H|].
    intros (d & Hd & _). now apply not_elem_of_nil in Hd.
  - destruct ((plan_ d []).1) as [g|] eqn:Hg.
    + rewrite elem_of_cons, IH. split.
      * intros [->|(d' & Hd' & E)];
          [exists d; auto using list_elem_of_here|].
        exists d'. auto using list_elem_of_further.
      * intros (d' & Hd' & E). apply elem_of_cons in Hd' as [->|Hd'].
        -- left. congruence.
        -- right. eauto.
    + rewrite IH. split.
      * intros (d' & Hd' & E). exists d'. auto using list_elem_of_further.
      * intros (d' & Hd' & E). apply elem_of_cons in Hd' as [->|Hd'].
        -- congruence.
        -- eauto.
Qed.

(** The file plans follow the iteration order of the graph: they are,
    in order, one plan with the name and the kind of each node that is
    no package; the package list holds, in order, the names of the
    package nodes. *)
Theorem plans_in_graph_order (dependencies : FileMap) :
  map (fun f => (file_name f, file_type f)) (buildFiles_ dependencies).1
  = map (fun d => (dep_name d, dep_type d))
      (List.filter (fun d => negb (is_package d)) (map_values dependencies))
  /\ (buildFiles_ dependencies).2
     = map dep_name (List.filter is_package (map_values dependencies)).
Proof.
  rewrite buildFiles_spec. simpl. split; [apply filterBoolean_kinds|].
  reflexivity.
Qed.

(** The export statement of a plan points at the installed file: the
    directory of the index, followed by the exported specifier and the
    extension, is the destination of the plan. *)
Theorem export_points_at_destination (dependencies : FileMap)
    (file : FilePlan) :
  file ∈ (buildFiles_ dependencies).1 ->
  exists directory,
    indexPath file = directory ++ "/index." ++ language
    /\ directoryPath file
       = directory ++ "/" ++ filePath file ++ "." ++ language.
Proof.
  rewrite buildFiles_spec. simpl. intros Hin.
  apply filterBoolean_elem in Hin as (d & _ & E).
  unfold planOf in E. destruct (dep_type d); simpl in E;
    try discriminate; injection E as <-; simpl.
  - exists pathToLoadHooks. auto.
  - exists pathToLoadUtils. auto.
  - exists (pathToLoadHooks ++ "/" ++ dep_parent d ++ "/helpers").
    rewrite !append_assoc. split; reflexivity.
Qed.

End MorePlanFacts.

Lemma export_points_at_destination_witness :
  exists directory,
    indexPath useFoo_plan = directory ++ "/index." ++ "ts"
    /\ directoryPath useFoo_plan
       = directory ++ "/" ++ filePath useFoo_plan ++ "." ++ "ts".
Proof.
  apply (export_points_at_destination (fun _ => "https://repo")
           "/app/src/hooks" "/app/src/utils" "ts"
           [("useFoo", mkDep hook_ "useFoo" "useFoo")]).
  apply list_elem_of_here.
Defined.

(** * Further properties of the installer *)

Lemma includes_empty_export filePath :
  includes "" (exportStatement filePath) = false.
Proof. reflexivity. Qed.

Lemma openError_None_dirs p w :
  openError p w = None -> contents w !! p = None ->
  bool_decide (p ∈ dirs w) = false.
Proof.
  unfold openError, isFile, isDirectory. intros H Hc. rewrite Hc in H.
  destruct (bool_decide (p ∈ dirs w)); [discriminate|reflexivity].
Qed.

(** What the index update does, by the state of the index path. *)
Lemma updateIndex_cases indexPath filePath w :
  updateIndex indexPath filePath w
  = match contents w !! indexPath with
    | Some text =>
        if includes text (exportStatement filePath) then Done w
        else appendFileSync indexPath (exportStatement filePath) w
    | None =>
        if bool_decide (indexPath ∈ dirs w) then Threw "EISDIR" w
        else andThen (writeFileSync indexPath "" w)
               (appendFileSync indexPath (exportStatement filePath))
    end.
Proof.
  unfold updateIndex, existsSync.
  destruct (contents w !! indexPath) as [text|] eqn:Htext.
  - rewrite orb_true_r. cbn [negb andThen]. rewrite Htext.
    now destruct (includes text (exportStatement filePath)).
  - rewrite orb_false_r.
    destruct (bool_decide (indexPath ∈ dirs w)); cbn [negb andThen].
    + now rewrite Htext.
    + unfold writeFileSync. destruct (openError indexPath w);
        cbn [andThen]; [reflexivity|].
      unfold emit at 1. cbn [contents].
      rewrite lookup_insert_eq, includes_empty_export. reflexivity.
Qed.

(** An index that does not exist, in a directory that does, is created
    and holds exactly the export line of the plan. *)
Theorem updateIndex_creates (indexPath filePath : string) (w : World) :
  existsSync indexPath w = false ->
  isDirectory indexPath w = false ->
  isDirectory (dirname indexPath) w = true ->
  exists w',
    updateIndex indexPath filePath w = Done w'
    /\ contents w'
       = <[indexPath := "export * from './" ++ filePath ++ "';" ++ LF]>
           (contents w)
    /\ dirs w' = dirs w.
Proof.
  intros Hex Hnd Hparent. unfold existsSync in Hex.
  apply orb_false_elim in Hex as [Hd Hc].
  destruct (contents w !! indexPath) eqn:Htext; [discriminate|].
  rewrite updateIndex_cases, Htext, Hd.
  assert (openError indexPath w = None) as Ho.
  { unfold openError, isFile. now rewrite Htext, Hnd, Hparent. }
  unfold writeFileSync. rewrite Ho. cbn [andThen].
  unfold appendFileSync.
  rewrite (openError_file indexPath _ "") by apply lookup_insert_eq.
  eexists. split; [reflexivity|]. split; [|reflexivity].
  unfold emit. cbn [contents dirs trace].
  rewrite lookup_insert_eq, insert_insert_eq. reflexivity.
Qed.

Lemma updateIndex_creates_witness :
  exists w',
    updateIndex "/app/src/hooks/useBar/index.ts" "helper" installed_world
    = Done w'
    /\ contents w'
       = <["/app/src/hooks/useBar/index.ts"
           := "export * from './" ++ "helper" ++ "';" ++ LF]>
           (contents installed_world)
    /\ dirs w' = dirs installed_world.
Proof.
  apply (updateIndex_creates "/app/src/hooks/useBar/index.ts" "helper"
           installed_world); reflexivity.
Defined.

(** An index update that returns only appends: the old text of the
    index is kept as the beginning of the new one, the new text
    contains the export line, and no other file and no directory is
    changed. *)
Theorem updateIndex_appends (indexPath filePath : string) (w w' : World) :
  updateIndex indexPath filePath w = Done w' ->
  dirs w' = dirs w
  /\ (forall p, p <> indexPath -> contents w' !! p = contents w !! p)
  /\ exists suffix,
       contents w' !! indexPath
       = Some (default "" (contents w !! indexPath) ++ suffix)
       /\ includes (default "" (contents w !! indexPath) ++ suffix)
            (exportStatement filePath) = true.
Proof.
  rewrite updateIndex_cases.
  destruct (contents w !! indexPath) as [text|] eqn:Htext.
  - destruct (includes text (exportStatement filePath)) eqn:Hinc.
    + intros [= <-]. split; [reflexivity|]. split; [reflexivity|].
      exists "". rewrite Htext. cbn [default]. rewrite append_empty_r. auto.
    + unfold appendFileSync. rewrite (openError_file _ _ _ Htext).
      intros [= <-]. unfold emit. cbn [contents dirs trace].
      split; [reflexivity|]. split.
      * intros p Hp. now apply lookup_insert_ne.
      * exists (exportStatement filePath).
        rewrite lookup_insert_eq, Htext. split; [reflexivity|].
        apply includes_append.
  - destruct (bool_decide (indexPath ∈ dirs w)); [discriminate|].
    unfold writeFileSync. destruct (openError indexPath w);
      cbn [andThen]; [discriminate|].
    unfold appendFileSync.
    rewrite (openError_file indexPath _ "") by apply lookup_insert_eq.
    intros [= <-]. unfold emit. cbn [contents dirs trace].
    split; [reflexivity|]. split.
    + intros p Hp. now rewrite !lookup_insert_ne.
    + exists (exportStatement filePath).
      rewrite !lookup_insert_eq. split; [reflexivity|].
      apply (includes_append "").
Qed.

Lemma updateIndex_appends_witness :
  let w' :=
    world_of (updateIndex "/app/src/hooks/index.ts" "useFoo/useFoo"
                installed_world) in
  dirs w' = dirs installed_world
  /\ (forall p, p <> "/app/src/hooks/index.ts" ->
                contents w' !! p = contents installed_world !! p)
  /\ exists suffix,
       contents w' !! "/app/src/hooks/index.ts"
       = Some (default "" (contents installed_world
                             !! "/app/src/hooks/index.ts") ++ suffix)
       /\ includes (default "" (contents installed_world
                                  !! "/app/src/hooks/index.ts") ++ suffix)
            (exportStatement "useFoo/useFoo") = true.
Proof.
  apply (updateIndex_appends "/app/src/hooks/index.ts" "useFoo/useFoo"
           installed_world).
  reflexivity.
Defined.

(** ** What a run keeps *)

Lemma keeps_refl touched w : keeps touched w w.
Proof. repeat split; auto. Qed.

Lemma keeps_trans touched1 touched2 touched w1 w2 w3 :
  keeps touched1 w1 w2 -> keeps touched2 w2 w3 ->
  (forall p, p ∈ touched1 -> p ∈ touched) ->
  (forall p, p ∈ touched2 -> p ∈ touched) ->
  keeps touched w1 w3.
Proof.
  intros (Hd1 & Hc1 & Hs1) (Hd2 & Hc2 & Hs2) Ht1 Ht2. repeat split.
  - set_solver.
  - intros p Hp. rewrite Hc2, Hc1; auto.
  - auto.
Qed.

Lemma keeps_same touched w w' :
  dirs w' = dirs w -> contents w' = contents w -> keeps touched w w'.
Proof. intros Hd Hc. unfold keeps. rewrite Hd, Hc. auto. Qed.

Lemma keeps_weaken touched touched' w w' :
  keeps touched w w' -> (forall p, p ∈ touched -> p ∈ touched') ->
  keeps touched' w w'.
Proof. intros (Hd & Hc & Hs) Ht. repeat split; auto. Qed.

Lemma keeps_mkdir touched directory w :
  keeps touched w (world_of (mkdirSync directory w)).
Proof.
  unfold mkdirSync. destruct (existsb _ _); simpl; [apply keeps_refl|].
  unfold emit, keeps. cbn [dirs contents]. repeat split; auto. set_solver.
Qed.

Lemma keeps_insert p text w tr :
  keeps [p] w (mkWorld (dirs w) (<[p := text]> (contents w)) tr).
Proof.
  unfold keeps. cbn [dirs contents]. repeat split.
  - reflexivity.
  - intros q Hq. apply lookup_insert_ne. intros ->. apply Hq.
    apply list_elem_of_here.
  - intros q Hq. destruct (decide (p = q)) as [->|Hne].
    + rewrite lookup_insert_eq. eauto.
    + now rewrite lookup_insert_ne.
Qed.

Lemma keeps_write p data w : keeps [p] w (world_of (writeFileSync p data w)).
Proof.
  unfold writeFileSync. destruct (openError p w); simpl;
    [apply keeps_refl|unfold emit; cbn [dirs contents trace];
                      apply keeps_insert].
Qed.

Lemma keeps_append p data w : keeps [p] w (world_of (appendFileSync p data w)).
Proof.
  unfold appendFileSync. destruct (openError p w); simpl;
    [apply keeps_refl|unfold emit; cbn [dirs contents trace];
                      apply keeps_insert].
Qed.

Lemma keeps_andThen touched1 touched2 touched w r k :
  keeps touched1 w (world_of r) ->
  (forall w1, keeps touched2 w1 (world_of (k w1))) ->
  (forall p, p ∈ touched1 -> p ∈ touched) ->
  (forall p, p ∈ touched2 -> p ∈ touched) ->
  keeps touched w (world_of (andThen r k)).
Proof.
  intros Hr Hk H1 H2. destruct r as [w1|error w1]; simpl in *.
  - eapply keeps_trans; [exact Hr|apply Hk|assumption..].
  - eapply keeps_weaken; eassumption.
Qed.

Lemma keeps_updateIndex indexPath filePath w :
  keeps [indexPath] w (world_of (updateIndex indexPath filePath w)).
Proof.
  unfold updateIndex.
  apply (keeps_andThen [indexPath] [indexPath]); auto.
  - destruct (negb (existsSync indexPath w));
      [apply keeps_write|apply keeps_refl].
  - intros w1. destruct (contents w1 !! indexPath) as [text|];
      [|apply keeps_refl].
    destruct (negb (includes text (exportStatement filePath)));
      [apply keeps_append|apply keeps_refl].
Qed.

Lemma keeps_installFile network file directory w :
  keeps [directoryPath file; indexPath file] w
    (world_of (installFile network file directory w)).
Proof.
  unfold installFile.
  apply (keeps_andThen [] [directoryPath file; indexPath file]); auto.
  - destruct (negb (existsSync directory w));
      [apply keeps_mkdir|apply keeps_refl].
  - intros w1.
    eapply keeps_trans;
      [apply (keeps_same [] w1 (emit (Fetch (registryPath file)) w1));
       reflexivity| |intros p Hp; now apply not_elem_of_nil in Hp
                    |intros p Hp; exact Hp].
    destruct (network (registryPath file)) as [data|];
      [|apply keeps_refl].
    apply (keeps_andThen [directoryPath file] [indexPath file]).
    + apply keeps_write.
    + intros w2. apply keeps_updateIndex.
    + intros p Hp. apply list_elem_of_singleton in Hp as ->.
      apply list_elem_of_here.
    + intros p Hp. apply list_elem_of_singleton in Hp as ->.
      apply list_elem_of_further, list_elem_of_here.
  - intros p Hp. now apply not_elem_of_nil in Hp.
Qed.

Lemma keeps_installFiles chalk_green network files :
  forall answers w,
    keeps (touched_paths files) w
      (world_of (installFiles chalk_green network files answers w)).
Proof.
  induction files as [|file rest IH]; intros answers w.
  - apply keeps_refl.
  - rewrite installFiles_cons. cbv zeta.
    set (w0 := emit (Prompt _) (emit SpinnerStop (emit (SpinnerText _) w))).
    assert (forall p, p ∈ touched_paths rest -> p ∈ touched_paths (file :: rest))
      as Hrest.
    { intros p Hp. unfold touched_paths. simpl.
      now do 2 apply list_elem_of_further. }
    assert (forall p, p ∈ [directoryPath file; indexPath file] ->
                      p ∈ touched_paths (file :: rest)) as Hfile.
    { intros p Hp. unfold touched_paths. simpl.
      apply elem_of_cons in Hp as [->|Hp]; [apply list_elem_of_here|].
      apply list_elem_of_singleton in Hp as ->.
      apply list_elem_of_further, list_elem_of_here. }
    destruct (negb (confirmed (ask answers).1)).
    + eapply keeps_weaken; [|exact Hrest].
      eapply keeps_trans; [|apply IH|intros p Hp; exact Hp..].
      apply keeps_same; reflexivity.
    + pose proof (keeps_installFile network file
                    (dirname (directoryPath file))
                    (emit (SpinnerStart ("Installing " ++ file_name file
                                         ++ "...")) w0)) as Hf.
      assert (keeps [directoryPath file; indexPath file] w
                (world_of
                   (installFile network file (dirname (directoryPath file))
                      (emit (SpinnerStart ("Installing " ++ file_name file
                                           ++ "...")) w0)))) as Hf'.
      { eapply keeps_trans; [|exact Hf|intros p Hp; exact Hp..].
        apply keeps_same; reflexivity. }
      clear Hf.
      destruct (installFile network file (dirname (directoryPath file))
                  (emit (SpinnerStart ("Installing " ++ file_name file
                                       ++ "...")) w0)) as [w1|error w1];
        simpl in Hf'.
      * eapply keeps_trans; [exact Hf'|apply IH|exact Hfile|exact Hrest].
      * simpl. eapply keeps_weaken; [exact Hf'|exact Hfile].
Qed.

(** A run of the installer, whether it ends normally or by a failed
    request, removes nothing: every directory and every file that was
    on disk before the run is there after it. *)
Theorem installer_never_deletes (chalk_green : string -> string)
    (network : string -> option string) (files : list FilePlan)
    (answers : list (option bool)) (w : World) (p : string) :
  existsSync p w = true ->
  existsSync p (world_of (installFiles chalk_green network files answers w))
  = true.
Proof.
  destruct (keeps_installFiles chalk_green network files answers w)
    as (Hd & _ & Hs).
  unfold existsSync. intros H. apply orb_true_iff in H as [H|H].
  - apply bool_decide_eq_true in H. apply orb_true_iff. left.
    apply bool_decide_eq_true. set_solver.
  - apply orb_true_iff. right.
    destruct (contents w !! p) as [text|] eqn:Hp; [|discriminate].
    destruct (Hs p) as [text' ->]; eauto.
Qed.

Lemma installer_never_deletes_witness :
  existsSync "/app/src/hooks/useBar/useBar.ts"
    (world_of (installFiles (fun s => s) (fun _ => Some "data")
                 [useFoo_plan] [Some true] installed_world))
  = true.
Proof.
  apply (installer_never_deletes (fun s => s) (fun _ => Some "data")
           [useFoo_plan] [Some true] installed_world).
  reflexivity.
Defined.

(** ** A helper called "index" *)

(** When the destination of a plan is its own index file (a helper
    called "index") and the body of the loop runs to its end, the index
    holds the fetched data: whatever it exported before is gone, and
    the export line is appended to the data unless the data contains
    it. *)
Theorem index_named_helper_replaces_index (network : string -> option string)
    (file : FilePlan) (directory : string) (w w' : World) (data : string) :
  directoryPath file = indexPath file ->
  network (registryPath file) = Some data ->
  installFile network file directory w = Done w' ->
  contents w' !! indexPath file
  = Some (if includes data (exportStatement (filePath file))
          then data
          else data ++ exportStatement (filePath file)).
Proof.
  intros Heq Hnet. unfold installFile.
  destruct (if negb (existsSync directory w) then mkdirSync directory w
            else Done w) as [w1|error w1]; cbn [andThen]; [|discriminate].
  rewrite Hnet, Heq. unfold writeFileSync.
  destruct (openError (indexPath file) (emit (Fetch (registryPath file)) w1));
    cbn [andThen]; [discriminate|].
  rewrite updateIndex_cases. unfold emit at 1 2. cbn [contents].
  rewrite lookup_insert_eq.
  destruct (includes data (exportStatement (filePath file))).
  - intros [= <-]. apply lookup_insert_eq.
  - unfold appendFileSync.
    rewrite (openError_file _ _ data) by apply lookup_insert_eq.
    intros [= <-]. unfold emit. cbn [contents].
    now rewrite !lookup_insert_eq.
Qed.

Lemma index_named_helper_replaces_index_witness :
  contents
    (world_of (installFile (fun _ => Some "export const index = 0;")
                 index_plan "/app/src/utils" installed_world))
    !! indexPath index_plan
  = Some (if includes "export const index = 0;"
               (exportStatement (filePath index_plan))
          then "export const index = 0;"
          else "export const index = 0;"
               ++ exportStatement (filePath index_plan)).
Proof.
  apply (index_named_helper_replaces_index
           (fun _ => Some "export const index = 0;") index_plan
           "/app/src/utils" installed_world).
  - reflexivity.
  - reflexivity.
  - vm_compute. reflexivity.
Defined.

(** ** Prompts and refusals *)

Lemma prompts_extends w w' later :
  trace w' = (trace w ++ later)%list ->
  Forall (fun e => is_prompt e = false) later ->
  prompts_shown w' = prompts_shown w.
Proof.
  intros E Hl. unfold prompts_shown. rewrite E, List.filter_app, length_app.
  assert (List.filter is_prompt later = []) as ->; [|simpl; lia].
  clear E. induction later as [|e later IH]; [reflexivity|].
  apply Forall_cons in Hl as [He Hl]. simpl. rewrite He. auto.
Qed.

Lemma prompts_emit e w :
  prompts_shown (emit e w)
  = prompts_shown w + (if is_prompt e then 1 else 0).
Proof.
  unfold prompts_shown, emit. cbn [trace].
  rewrite List.filter_app, length_app. simpl.
  now destruct (is_prompt e).
Qed.

Lemma prompts_mkdir directory w :
  prompts_shown (world_of (mkdirSync directory w)) = prompts_shown w.
Proof.
  unfold mkdirSync. destruct (existsb _ _); simpl; [reflexivity|].
  apply (prompts_extends _ _ [Mkdir directory]); [reflexivity|].
  repeat constructor.
Qed.

Lemma prompts_write p data w :
  prompts_shown (world_of (writeFileSync p data w)) = prompts_shown w.
Proof.
  unfold writeFileSync. destruct (openError p w); simpl; [reflexivity|].
  apply (prompts_extends _ _ [WriteFile p data]); [reflexivity|].
  repeat constructor.
Qed.

Lemma prompts_append p data w :
  prompts_shown (world_of (appendFileSync p data w)) = prompts_shown w.
Proof.
  unfold appendFileSync. destruct (openError p w); simpl; [reflexivity|].
  apply (prompts_extends _ _ [AppendFile p data]); [reflexivity|].
  repeat constructor.
Qed.

Lemma prompts_andThen w r k :
  prompts_shown (world_of r) = prompts_shown w ->
  (forall w1, prompts_shown (world_of (k w1)) = prompts_shown w1) ->
  prompts_shown (world_of (andThen r k)) = prompts_shown w.
Proof.
  intros Hr Hk. destruct r as [w1|error w1]; simpl in *; [|assumption].
  now rewrite Hk.
Qed.

Lemma prompts_updateIndex indexPath filePath w :
  prompts_shown (world_of (updateIndex indexPath filePath w))
  = prompts_shown w.
Proof.
  unfold updateIndex. apply prompts_andThen.
  - destruct (negb (existsSync indexPath w));
      [apply prompts_write|reflexivity].
  - intros w1. destruct (contents w1 !! indexPath) as [text|];
      [|reflexivity].
    destruct (negb (includes text (exportStatement filePath)));
      [apply prompts_append|reflexivity].
Qed.

Lemma prompts_installFile network file directory w :
  prompts_shown (world_of (installFile network file directory w))
  = prompts_shown w.
Proof.
  unfold installFile. apply prompts_andThen.
  - destruct (negb (existsSync directory w));
      [apply prompts_mkdir|reflexivity].
  - intros w1.
    assert (prompts_shown (emit (Fetch (registryPath file)) w1)
            = prompts_shown w1) as Hf
        by (rewrite prompts_emit; simpl; lia).
    destruct (network (registryPath file)) as [data|]; [|exact Hf].
    rewrite <- Hf. apply prompts_andThen; [apply prompts_write|].
    intros w2. apply prompts_updateIndex.
Qed.

(** In a run of the loop that ends normally the overwrite prompt was
    shown exactly once for each plan, whatever was on disk and whatever
    the answers were. *)
Theorem one_prompt_per_plan (chalk_green : string -> string)
    (network : string -> option string) (files : list FilePlan)
    (answers : list (option bool)) (w w' : World) :
  installFiles chalk_green network files answers w = Done w' ->
  prompts_shown w' = prompts_shown w + length files.
Proof.
  revert answers w. induction files as [|file rest IH]; intros answers w E.
  - injection E as <-. simpl. lia.
  - rewrite installFiles_cons in E. cbv zeta in E.
    destruct (negb (confirmed (ask answers).1)).
    + apply IH in E. rewrite E, !prompts_emit. simpl. lia.
    + pose proof (prompts_installFile network file
                    (dirname (directoryPath file))
                    (emit (SpinnerStart ("Installing " ++ file_name file
                                         ++ "..."))
                       (emit (Prompt ("File " ++ file_name file
                                      ++ " already exists. Would you like to overwrite?"))
                          (emit SpinnerStop
                             (emit (SpinnerText ("Installing "
                                                 ++ file_name file ++ "..."))
                                w))))) as Hp.
      destruct (installFile network file (dirname (directoryPath file)) _)
        as [w1|error w1]; [|discriminate].
      simpl in Hp. apply IH in E. rewrite E, Hp, !prompts_emit. simpl. lia.
Qed.

Lemma one_prompt_per_plan_witness :
  prompts_shown
    (mkWorld ∅ ∅
       [ SpinnerText "Installing useFoo...";
         SpinnerStop;
         Prompt "File useFoo already exists. Would you like to overwrite?";
         ConsoleLog ("Skipped useFoo. To overwrite, run with the "
                     ++ "--overwrite" ++ " flag.") ])
  = prompts_shown empty_world + length [useFoo_plan].
Proof.
  apply (one_prompt_per_plan (fun s => s) (fun _ => None) [useFoo_plan]
           [Some false] empty_world).
  reflexivity.
Defined.

(** When no answer is a confirmation (refusals, cancelled prompts, or
    no answers left), the run ends normally, every plan got its prompt,
    and the disk is as before: same directories, same files. *)
Theorem all_declined_disk_unchanged (chalk_green : string -> string)
    (network : string -> option string) (files : list FilePlan)
    (answers : list (option bool)) (w : World) :
  Forall (fun answer => confirmed answer = false) answers ->
  exists w',
    installFiles chalk_green network files answers w = Done w'
    /\ dirs w' = dirs w
    /\ contents w' = contents w
    /\ prompts_shown w' = prompts_shown w + length files.
Proof.
  revert answers w. induction files as [|file rest IH]; intros answers w Hno.
  - exists w. simpl. repeat split; lia.
  - rewrite installFiles_cons. cbv zeta.
    assert (confirmed (ask answers).1 = false
            /\ Forall (fun answer => confirmed answer = false)
                 (ask answers).2) as [Hfirst Hrest].
    { destruct Hno; simpl; auto. }
    rewrite Hfirst. cbn [negb].
    destruct (IH (ask answers).2
                (emit (ConsoleLog ("Skipped " ++ file_name file
                                   ++ ". To overwrite, run with the "
                                   ++ chalk_green "--overwrite" ++ " flag."))
                   (emit (Prompt ("File " ++ file_name file
                                  ++ " already exists. Would you like to overwrite?"))
                      (emit SpinnerStop
                         (emit (SpinnerText ("Installing " ++ file_name file
                                             ++ "...")) w)))) Hrest)
      as (w' & E & Hd & Hc & Hp).
    exists w'. split; [exact E|]. split; [exact Hd|]. split; [exact Hc|].
    rewrite Hp, !prompts_emit. simpl. lia.
Qed.

Lemma all_declined_disk_unchanged_witness :
  exists w',
    installFiles (fun s => s) (fun _ => Some "data")
      [useFoo_plan; index_plan] [Some false; None] installed_world = Done w'
    /\ dirs w' = dirs installed_world
    /\ contents w' = contents installed_world
    /\ prompts_shown w'
       = prompts_shown installed_world + length [useFoo_plan; index_plan].
Proof.
  apply (all_declined_disk_unchanged (fun s => s) (fun _ => Some "data")
           [useFoo_plan; index_plan] [Some false; None] installed_world).
  repeat constructor.
Defined.

Lemma existsb_isFile_same (w w0 : World) (l : list string) :
  contents w0 = contents w ->
  existsb (fun a => isFile a w0) l = existsb (fun a => isFile a w) l.
Proof. intros E. unfold isFile. now rewrite E. Qed.

(** A request that fails after a confirmation ends the run at once,
    provided no regular file lies on the way to the destination
    directory (the directory can be made): the outcome is the uncaught
    failure of the request, no file has changed, and the plans and
    answers that follow play no part in it. *)
Theorem failed_fetch_stops_run (chalk_green : string -> string)
    (network : string -> option string) (file : FilePlan)
    (rest : list FilePlan) (answer : option bool)
    (answers : list (option bool)) (w : World) :
  confirmed answer = true ->
  network (registryPath file) = None ->
  existsb (fun a => isFile a w)
    (ancestors (String.length (dirname (directoryPath file)))
       (dirname (directoryPath file))) = false ->
  exists w',
    installFiles chalk_green network (file :: rest) (answer :: answers) w
    = Threw "fetch failed" w'
    /\ contents w' = contents w
    /\ prompts_shown w' = prompts_shown w + 1
    /\ installFiles chalk_green network [file] [answer] w
       = Threw "fetch failed" w'.
Proof.
  intros Hyes Hnet Hway. rewrite !installFiles_cons. cbv zeta.
  cbn [ask fst snd]. rewrite Hyes. cbn [negb]. unfold installFile.
  set (w0 := emit (SpinnerStart _) (emit (Prompt _) (emit SpinnerStop
               (emit (SpinnerText _) w)))).
  assert (prompts_shown w0 = prompts_shown w + 1) as Hp0
      by (subst w0; rewrite !prompts_emit; simpl; lia).
  assert (mkdirSync (dirname (directoryPath file)) w0
          = Done (emit (Mkdir (dirname (directoryPath file)))
                    (mkWorld (dirs w0
                              ∪ list_to_set
                                  (ancestors
                                     (String.length
                                        (dirname (directoryPath file)))
                                     (dirname (directoryPath file))))
                       (contents w0) (trace w0)))) as Hmk.
  { unfold mkdirSync.
    rewrite (existsb_isFile_same w w0) by reflexivity. now rewrite Hway. }
  destruct (negb (existsSync (dirname (directoryPath file)) w0));
    rewrite ?Hmk; cbn [andThen]; rewrite Hnet;
    (eexists; split; [reflexivity|]; split; [reflexivity|];
     split; [|reflexivity]).
  - rewrite prompts_emit. simpl. rewrite Nat.add_0_r, <- Hp0.
    apply (prompts_extends _ _ [Mkdir (dirname (directoryPath file))]);
      [reflexivity|repeat constructor].
  - rewrite prompts_emit. simpl. lia.
Qed.

Lemma failed_fetch_stops_run_witness :
  exists w',
    installFiles (fun s => s) (fun _ => None) [useFoo_plan; index_plan]
      [Some true; Some true] installed_world
    = Threw "fetch failed" w'
    /\ contents w' = contents installed_world
    /\ prompts_shown w' = prompts_shown installed_world + 1
    /\ installFiles (fun s => s) (fun _ => None) [useFoo_plan] [Some true]
         installed_world
       = Threw "fetch failed" w'.
Proof.
  apply (failed_fetch_stops_run (fun s => s) (fun _ => None) useFoo_plan
           [index_plan] (Some true) [Some true] installed_world).
  - reflexivity.
  - reflexivity.
  - vm_compute. reflexivity.
Defined.

(** * The handler as a whole *)

Section HandlerFacts.

Variables chalk_green chalk_cyan : string -> string.
Variable REPO_URLS : string -> string.
Variable network : string -> option string.
Variable depth : nat.

Local Notation "'handler_'" :=
  (handler chalk_green chalk_cyan REPO_URLS network depth).

(** Whenever the command ends by [process.exit], the exit code is 0 or
    1 and the disk is as it was: same directories, same files. *)
Theorem exit_leaves_disk_untouched (options : AddOptions)
    (around : Surroundings) (w w' : World) (code : nat) :
  handler_ options around w = ProcessExit code w' ->
  dirs w' = dirs w /\ contents w' = contents w /\ code <= 1.
Proof.
  unfold handler.
  destruct (sur_config around) as [config|];
    [|intros [= <- <-]; repeat split; lia].
  destruct (sur_registry around) as [registry|];
    [|intros [= <- <-]; repeat split; lia].
  cbv zeta.
  set (w0 := if Nat.eqb _ 0 then emit _ w else w).
  assert (dirs w0 = dirs w /\ contents w0 = contents w) as [Hd Hc].
  { subst w0. destruct (Nat.eqb _ 0); split; reflexivity. }
  destruct (if negb (opt_all options) then _ else None);
    [intros [= <- <-]; repeat split; auto|].
  destruct (Nat.eqb (length (selectHooks _ _ _ _)) 0);
    [intros [= <- <-]; repeat split; auto|].
  destruct (sur_tsconfig around) as [message|matchPath]; [discriminate|].
  destruct (usable (matchPath (hookPath config)));
    [|intros [= <- <-]; repeat split; auto].
  destruct (usable (matchPath (utilsPath config)));
    [|intros [= <- <-]; repeat split; auto].
  destruct (resolveDependencies depth registry _); try discriminate.
  destruct (install _ _ _ _ _); discriminate.
Qed.


End HandlerFacts.

Lemma exit_leaves_disk_untouched_witness :
  dirs (emit (ConsoleLog "Hook useFoo not found in the registry.")
          (emit (Prompt ("Which " ++ "hooks" ++ " would you like to add?"))
             installed_world))
  = dirs installed_world
  /\ contents (emit (ConsoleLog "Hook useFoo not found in the registry.")
                 (emit (Prompt ("Which " ++ "hooks"
                                ++ " would you like to add?"))
                    installed_world))
     = contents installed_world
  /\ 1 <= 1.
Proof.
  apply (exit_leaves_disk_untouched (fun s => s) (fun s => s)
           (fun _ => "https://repo") (fun _ => Some "data") 5
           (mkOptions [] false) renamed_surroundings installed_world).
  reflexivity.
Defined.

Lemma choiceValues_lookup registry keys : forall i key item,
  Forall (fun k => is_Some (registry !! k)) keys ->
  keys !! i = Some key -> registry !! key = Some item ->
  choiceValues registry keys !! i = Some (item_name item).
Proof.
  induction keys as [|k keys IH]; intros i key item Hkeys Hi Hitem;
    [discriminate|].
  apply Forall_cons in Hkeys as [[item0 Hk] Hkeys].
  unfold choiceValues. simpl. rewrite Hk. simpl.
  destruct i as [|i]; simpl in Hi.
  - injection Hi as ->. simpl. congruence.
  - simpl. now apply (IH i key item).
Qed.

(** The multi-select prompt offers the display names of the units, and
    the selection is then looked up by key: when nothing is named on
    the command line and the unit ticked in the prompt has a display
    name that is no key of the registry, the command reports that
    display name as not found and exits with code 1. *)
Theorem ticked_display_name_not_found
    (chalk_green chalk_cyan REPO_URLS : string -> string)
    (network : string -> option string) (depth : nat)
    (options : AddOptions) (around : Surroundings) (w : World)
    (config : Config) (registry : gmap string RegistryItem)
    (i : nat) (key : string) (item : RegistryItem) :
  opt_hooks options = [] -> opt_all options = false ->
  sur_config around = Some config ->
  sur_registry around = Some registry ->
  Forall (fun k => is_Some (registry !! k)) (sur_keys around) ->
  sur_keys around !! i = Some key ->
  registry !! key = Some item ->
  sur_ticked around = Some [i] ->
  present registry (item_name item) = false ->
  handler chalk_green chalk_cyan REPO_URLS network depth options around w
  = ProcessExit 1
      (emit (ConsoleLog ("Hook " ++ item_name item
                         ++ " not found in the registry."))
         (emit (Prompt ("Which " ++ chalk_cyan "hooks"
                        ++ " would you like to add?")) w)).
Proof.
  intros Hhooks Hall Hconfig Hregistry Hkeys Hi Hitem Hticked Hmissing.
  unfold handler, selectHooks.
  rewrite Hconfig, Hregistry, Hall, Hhooks, Hticked. cbn [length Nat.eqb negb].
  unfold multiselect. cbn [omap list_omap].
  rewrite (choiceValues_lookup registry _ i key item Hkeys Hi Hitem).
  cbn [firstMissing]. rewrite Hmissing. reflexivity.
Qed.

Lemma ticked_display_name_not_found_witness :
  handler (fun s => s) (fun s => s) (fun _ => "https://repo")
    (fun _ => Some "data") 5 (mkOptions [] false) renamed_surroundings
    installed_world
  = ProcessExit 1
      (emit (ConsoleLog ("Hook " ++ item_name (mkItem "useFoo" [] []
                                                 ["helper"] [])
                         ++ " not found in the registry."))
         (emit (Prompt ("Which " ++ (fun s => s) "hooks"
                        ++ " would you like to add?")) installed_world)).
Proof.
  apply (ticked_display_name_not_found (fun s => s) (fun s => s)
           (fun _ => "https://repo") (fun _ => Some "data") 5
           (mkOptions [] false) renamed_surroundings installed_world
           (mkConfig true "@/hooks" "@/utils") renamed_registry 0 "use-foo"
           (mkItem "useFoo" [] [] ["helper"] []));
    try reflexivity.
  repeat constructor. now eexists.
Defined.

(** * A selection given twice *)

Lemma forOf_app {S : Type} (body : string -> S -> outcome S) xs ys :
  forall s,
    forOf body (xs ++ ys) s
    = match forOf body xs s with
      | Returned s' => forOf body ys s'
      | TypeError h => TypeError h
      | StackExhausted => StackExhausted
      end.
Proof.
  induction xs as [|x xs IH]; intros s; [reflexivity|].
  change ((x :: xs) ++ ys)%list with (x :: (xs ++ ys))%list.
  rewrite !forOf_cons. destruct (body x s); auto.
Qed.

Lemma filemap_ext (m1 m2 : FileMap) :
  NoDup (map_keys m1) ->
  map_keys m1 = map_keys m2 ->
  (forall k, map_get k m1 = map_get k m2) ->
  m1 = m2.
Proof.
  revert m2. induction m1 as [|[k1 v1] m1 IH]; intros [|[k2 v2] m2] Hnd Hk Hg;
    try discriminate; [reflexivity|].
  simpl in Hk. injection Hk as <- Hk.
  apply NoDup_cons in Hnd as [Hout Hnd].
  pose proof (Hg k1) as H1. simpl in H1. rewrite String.eqb_refl in H1.
  injection H1 as <-. f_equal. apply IH; [assumption..|].
  intros k. specialize (Hg k). simpl in Hg.
  destruct (String.eqb_spec k k1) as [Heq|Hne]; [|assumption].
  rewrite Heq. clear Hg.
  assert (forall m : FileMap, k1 ∉ map_keys m -> map_get k1 m = None) as Hnone.
  { intros m Hm. destruct (map_get k1 m) eqn:E; [|reflexivity].
    exfalso. apply Hm, map_get_keys. eauto. }
  rewrite !Hnone; [reflexivity|now rewrite <- Hk|assumption].
Qed.

Lemma map_keys_set_present k v (m : FileMap) :
  k ∈ map_keys m -> map_keys (map_set k v m) = map_keys m.
Proof.
  intros H. rewrite map_keys_set.
  apply existsb_eqb_elem in H. now rewrite H.
Qed.

Lemma setEach_keys_present ty parent names : forall files,
  (forall n, n ∈ names -> n ∈ map_keys files) ->
  map_keys (setEach ty parent names files) = map_keys files.
Proof.
  intros files. rewrite setEach_fold. revert files.
  induction names as [|n names IH]; intros files H; [reflexivity|].
  simpl. rewrite IH.
  - apply map_keys_set_present, H, list_elem_of_here.
  - intros n' Hn'. rewrite map_keys_set_present;
      auto using list_elem_of_here, list_elem_of_further.
Qed.

Lemma record_keys_present hook item files :
  (forall k, k ∈ written hook item -> k ∈ map_keys files) ->
  map_keys (record hook item files) = map_keys files.
Proof.
  intros H. unfold written in H. unfold record.
  assert (map_keys (map_set hook (mkDep hook_ hook (item_name item)) files)
          = map_keys files) as E0
      by (apply map_keys_set_present, H, list_elem_of_here).
  assert (map_keys (setEach util_ (item_name item) (item_utils item)
                      (map_set hook (mkDep hook_ hook (item_name item)) files))
          = map_keys files) as E1.
  { rewrite setEach_keys_present; [exact E0|].
    intros n Hn. rewrite E0. apply H, list_elem_of_further.
    rewrite !elem_of_app. auto. }
  assert (map_keys (setEach local_ (item_name item) (item_local item)
                      (setEach util_ (item_name item) (item_utils item)
                         (map_set hook (mkDep hook_ hook (item_name item))
                            files)))
          = map_keys files) as E2.
  { rewrite setEach_keys_present; [exact E1|].
    intros n Hn. rewrite E1. apply H, list_elem_of_further.
    rewrite !elem_of_app. auto. }
  rewrite setEach_keys_present; [exact E2|].
  intros n Hn. rewrite E2. apply H, list_elem_of_further.
  rewrite !elem_of_app. auto.
Qed.

Lemma replay_NoDup registry calls : forall files,
  NoDup (map_keys files) -> NoDup (map_keys (replay registry calls files)).
Proof.
  induction calls as [|c calls IH]; intros files H; [assumption|].
  change (replay registry (c :: calls) files)
    with (replay registry calls
            (match registry !! c with
             | Some item => record c item files
             | None => files
             end)).
  apply IH. destruct (registry !! c); [now apply record_NoDup|assumption].
Qed.

Lemma replay_keys_present registry calls : forall files,
  (forall c item k, c ∈ calls -> registry !! c = Some item ->
                    k ∈ written c item -> k ∈ map_keys files) ->
  map_keys (replay registry calls files) = map_keys files.
Proof.
  induction calls as [|c calls IH]; intros files H; [reflexivity|].
  change (replay registry (c :: calls) files)
    with (replay registry calls
            (match registry !! c with
             | Some item => record c item files
             | None => files
             end)).
  assert (map_keys (match registry !! c with
                    | Some item => record c item files
                    | None => files
                    end) = map_keys files) as E.
  { destruct (registry !! c) as [item|] eqn:Hi; [|reflexivity].
    apply record_keys_present. intros k Hk.
    apply (H c item k); auto using list_elem_of_here. }
  rewrite IH, E; [reflexivity|].
  intros c' item' k Hc' Hi' Hk. rewrite E.
  apply (H c' item' k); auto using list_elem_of_further.
Qed.

Lemma record_get_const hook item k :
  k ∈ written hook item ->
  exists d, forall files, map_get k (record hook item files) = Some d.
Proof.
  intros Hw. unfold record.
  destruct (decide (k ∈ item_packages item)) as [Hp|Hp].
  { eexists. intros files. now apply setEach_get. }
  destruct (decide (k ∈ item_local item)) as [Hlo|Hlo].
  { eexists. intros files. rewrite setEach_get_other by assumption.
    now apply setEach_get. }
  destruct (decide (k ∈ item_utils item)) as [Hu|Hu].
  { eexists. intros files. rewrite !setEach_get_other by assumption.
    now apply setEach_get. }
  unfold written in Hw. apply elem_of_cons in Hw as [->|Hw].
  - eexists. intros files. rewrite !setEach_get_other by assumption.
    apply map_get_set_eq.
  - rewrite !elem_of_app in Hw. tauto.
Qed.

(** What a sequence of calls leaves under a name depends on the map it
    started from only when no call writes the name. *)
Lemma replay_get_cases registry calls k :
  (exists d, forall files, map_get k (replay registry calls files) = Some d)
  \/ (forall files, map_get k (replay registry calls files) = map_get k files).
Proof.
  induction calls as [|c calls IH]; [right; reflexivity|].
  assert (forall files,
             replay registry (c :: calls) files
             = replay registry calls
                 (match registry !! c with
                  | Some item => record c item files
                  | None => files
                  end)) as Hstep by reflexivity.
  destruct IH as [(d & Hd)|Hpass].
  - left. exists d. intros files. now rewrite Hstep.
  - destruct (registry !! c) as [item|] eqn:Hi.
    + destruct (decide (k ∈ written c item)) as [Hw|Hw].
      * left. destruct (record_get_const c item k Hw) as (d & Hd).
        exists d. intros files. now rewrite Hstep, Hpass.
      * right. intros files. rewrite Hstep, Hpass.
        now apply record_get_other.
    + right. intros files. now rewrite Hstep, Hpass.
Qed.

Lemma replay_written_keys registry calls : forall files c item k,
  c ∈ calls -> registry !! c = Some item -> k ∈ written c item ->
  k ∈ map_keys (replay registry calls files).
Proof.
  induction calls as [|c0 calls IH]; intros files c item k Hc Hi Hk.
  - now apply not_elem_of_nil in Hc.
  - change (replay registry (c0 :: calls) files)
      with (replay registry calls
              (match registry !! c0 with
               | Some item => record c0 item files
               | None => files
               end)).
    apply elem_of_cons in Hc as [<-|Hc]; [|eauto].
    rewrite Hi.
    destruct (replay_get_cases registry calls k) as [(d & Hd)|Hpass];
      apply map_get_keys.
    + rewrite Hd. eauto.
    + rewrite Hpass. apply map_get_keys, record_keys. auto.
Qed.

Lemma replay_idem registry calls files :
  NoDup (map_keys files) ->
  replay registry calls (replay registry calls files)
  = replay registry calls files.
Proof.
  intros Hnd. apply filemap_ext.
  - now do 2 apply replay_NoDup.
  - apply replay_keys_present. intros c item k Hc Hi Hk.
    eapply replay_written_keys; eassumption.
  - intros k.
    destruct (replay_get_cases registry calls k) as [(d & Hd)|Hpass].
    + now rewrite !Hd.
    + now rewrite Hpass.
Qed.

(** Resolving a selection written twice in a row gives what resolving
    it once gives: the same graph with the same order of keys, or the
    same failure. *)
Theorem resolve_selection_twice (depth : nat)
    (registry : gmap string RegistryItem) (roots : list string) :
  resolveDependencies depth registry (roots ++ roots)
  = resolveDependencies depth registry roots.
Proof.
  unfold resolveDependencies. rewrite forOf_app.
  pose proof (resolve_visit registry roots depth roots [] []
                (callable_refl_roots registry roots)) as H1.
  destruct (forOf (resolveDependency depth registry) roots [])
    as [files1| |] eqn:E1; try reflexivity.
  destruct H1 as (calls & Ev & -> & _ & _).
  pose proof (resolve_visit registry roots depth roots
                (replay registry calls []) []
                (callable_refl_roots registry roots)) as H2.
  destruct (forOf (resolveDependency depth registry) roots
              (replay registry calls [])) as [files2| |].
  - destruct H2 as (calls2 & Ev2 & -> & _ & _).
    rewrite Ev in Ev2. injection Ev2 as <-.
    f_equal. apply replay_idem. apply NoDup_nil. exact I.
  - rewrite Ev in H2. discriminate.
  - rewrite Ev in H2. discriminate.
Qed.

(** * Sources and destinations *)

Lemma toUpperCase_language typescript :
  toUpperCase (language_of typescript) = if typescript then "TS" else "JS".
Proof. now destruct typescript. Qed.

(** A file is fetched from the place in the repository that mirrors
    its destination: what follows the hooks root in the destination of
    a hook or a local helper follows [/hooks] in its source URL, and
    what follows the helpers root in the destination of a helper
    follows [/utils/helpers]; the repository is the entry TS or JS of
    the table, by the language of the project. *)
Theorem source_mirrors_destination (REPO_URLS : string -> string)
    (pathToLoadHooks pathToLoadUtils : string) (typescript : bool)
    (dependencies : FileMap) (file : FilePlan) :
  file ∈ (buildFiles REPO_URLS pathToLoadHooks pathToLoadUtils
            (language_of typescript) dependencies).1 ->
  exists suffix,
    (file_type file <> util_
     /\ directoryPath file = pathToLoadHooks ++ suffix
     /\ registryPath file
        = REPO_URLS (if typescript then "TS" else "JS") ++ "/hooks" ++ suffix)
    \/ (file_type file = util_
        /\ directoryPath file = pathToLoadUtils ++ suffix
        /\ registryPath file
           = REPO_URLS (if typescript then "TS" else "JS")
             ++ "/utils/helpers" ++ suffix).
Proof.
  rewrite buildFiles_spec. simpl. intros Hin.
  apply filterBoolean_elem in Hin as (d & _ & E).
  unfold planOf in E. rewrite toUpperCase_language in E.
  destruct (dep_type d) eqn:Ht; simpl in E; try discriminate;
    injection E as <-; simpl.
  - exists ("/" ++ (dep_name d ++ "/" ++ dep_name d) ++ "."
            ++ language_of typescript).
    left. repeat split; discriminate.
  - exists ("/" ++ dep_name d ++ "." ++ language_of typescript).
    right. repeat split.
  - exists ("/" ++ dep_parent d ++ "/helpers/" ++ dep_name d ++ "."
            ++ language_of typescript).
    left. repeat split; discriminate.
Qed.

Lemma source_mirrors_destination_witness :
  exists suffix,
    (file_type useFoo_plan <> util_
     /\ directoryPath useFoo_plan = "/app/src/hooks" ++ suffix
     /\ registryPath useFoo_plan
        = (fun _ => "https://repo") (if true then "TS" else "JS")
          ++ "/hooks" ++ suffix)
    \/ (file_type useFoo_plan = util_
        /\ directoryPath useFoo_plan = "/app/src/utils" ++ suffix
        /\ registryPath useFoo_plan
           = (fun _ => "https://repo") (if true then "TS" else "JS")
             ++ "/utils/helpers" ++ suffix).
Proof.
  apply (source_mirrors_destination (fun _ => "https://repo")
           "/app/src/hooks" "/app/src/utils" true
           [("useFoo", mkDep hook_ "useFoo" "useFoo")]).
  apply list_elem_of_here.
Defined.
